(** * SecureOTP: the OTP store and the session timer

    A shallow embedding of [src/services/otpManager.ts] and of the state
    machine of [src/hooks/useSessionTimer.ts], with the properties of the
    specification proved about them; then of the code around them: the
    persistence of the session start in [src/services/analytics.ts], the
    hook [useOtp], and the parts of the login, OTP and session screens that
    call them.

    Conventions of the embedding:
    - a JavaScript number that holds a time stamp, a duration or a counter is
      an integer ([Date.now()] returns whole milliseconds, counters start at
      [0] and are incremented by [1]); it is modelled as [Z].  On such values,
      below [2^53], the floating point operations of the source ([-], [/]
      followed by [Math.floor] or [Math.ceil], [%]) agree with the integer
      ones used here;
    - a JavaScript string is a [string]: each [ascii] is read as one code unit
      in the range [0..255];
    - the [Map<string, OtpRecord>] of the manager is a [gmap string OtpRecord];
      every method receives the store and returns its result together with the
      store it leaves behind;
    - [Date.now()] and [Math.random()] are the only inputs a method reads from
      its environment; they are passed as the arguments [now] and [raw];
    - an [async] function is followed from its call to its end, the promises
      it awaits having settled; the calls it makes to a collaborator that
      is not modelled are recorded in the state;
    - the messages shown to the user are only stored: their text is the one
      of the source, as the bytes of its UTF-8 encoding. *)

From Stdlib Require Import ZArith Bool List Ascii String DecimalString DecimalZ Lia.
From stdpp Require Import base option gmap strings.

Local Open Scope string_scope.
Local Open Scope Z_scope.

(** ** JavaScript primitives used by the sources *)

Module JS.

(** [Number.prototype.toString] on an integer: an optional minus sign and the
    decimal digits without leading zeros.  This is what the source prints
    for the integers a [number] holds exactly, those of magnitude below
    [2^53]; from [10^21] on JavaScript prints an exponent instead. *)
Definition toString (n : Z) : string :=
  NilEmpty.string_of_int (Z.to_int n).

(** [n] copies of the character [c]. *)
Fixpoint replicate_char (n : nat) (c : ascii) : string :=
  match n with
  | O => EmptyString
  | S k => String c (replicate_char k c)
  end.

(** [s.padStart(target, c)] for a one-character pad string [c]: the string is
    returned as it is when it already has [target] characters or more. *)
Definition padStart (target : nat) (c : ascii) (s : string) : string :=
  replicate_char (target - String.length s) c ++ s.

(** White space and line terminators of ECMAScript among the code units
    [0..255]: TAB, LF, VT, FF, CR, SPACE and NO-BREAK SPACE. *)
Definition is_white_space (c : ascii) : bool :=
  let n := nat_of_ascii c in
  (n =? 9)%nat || (n =? 10)%nat || (n =? 11)%nat || (n =? 12)%nat
  || (n =? 13)%nat || (n =? 32)%nat || (n =? 160)%nat.

(** [s.trimStart()] *)
Fixpoint trimStart (s : string) : string :=
  match s with
  | EmptyString => EmptyString
  | String c s' => if is_white_space c then trimStart s' else s
  end.

(** [s.trimEnd()] *)
Fixpoint trimEnd (s : string) : string :=
  match s with
  | EmptyString => EmptyString
  | String c s' =>
      match trimEnd s' with
      | EmptyString => if is_white_space c then EmptyString else String c EmptyString
      | r => String c r
      end
  end.

(** [s.trim()] *)
Definition trim (s : string) : string := trimEnd (trimStart s).

(** No character of [s] is white space. *)
Fixpoint no_white_space (s : string) : bool :=
  match s with
  | EmptyString => true
  | String c s' => negb (is_white_space c) && no_white_space s'
  end.

(** [Math.ceil (a / b)] for integers [a] and [b > 0]. *)
Definition ceil_div (a b : Z) : Z := - ((- a) / b).

(** A value of type [number] that holds an integer, or [NaN]. *)
Inductive number : Type :=
  | NaN
  | Num (n : Z).

(** The truthiness of a number ([NaN], [0] and [-0] are falsy) and of a
    string (the empty string is falsy). *)
Definition truthy_number (x : number) : bool :=
  match x with
  | NaN => false
  | Num n => negb (n =? 0)
  end.

Definition truthy_string (s : string) : bool :=
  match s with
  | EmptyString => false
  | String _ _ => true
  end.

(** The decimal digits ["0"] to ["9"] and their values. *)
Definition is_digit (c : ascii) : bool :=
  let n := nat_of_ascii c in (48 <=? n)%nat && (n <=? 57)%nat.

Definition digit_value (c : ascii) : Z := Z.of_nat (nat_of_ascii c) - 48.

(** The longest prefix of [s] made of decimal digits. *)
Fixpoint digits_prefix (s : string) : string :=
  match s with
  | EmptyString => EmptyString
  | String c s' =>
      if is_digit c then String c (digits_prefix s') else EmptyString
  end.

(** The number written by the digits of [s], after the digits that gave
    [acc]. *)
Fixpoint digits_value (acc : Z) (s : string) : Z :=
  match s with
  | EmptyString => acc
  | String c s' => digits_value (10 * acc + digit_value c) s'
  end.

(** [parseInt(s, 10)]: leading white space is skipped, a sign is read, then
    the longest run of decimal digits; the result is [NaN] when that run is
    empty.  The zero [-0] is [Num 0].  The number read is exact; JavaScript
    rounds it to a [number], which changes nothing below [2^53]. *)
Definition parseInt (s : string) : number :=
  let s1 := trimStart s in
  let '(sign, s2) :=
    match s1 with
    | String "-" r => (-1, r)
    | String "+" r => (1, r)
    | _ => (1, s1)
    end in
  match digits_prefix s2 with
  | EmptyString => NaN
  | z => Num (sign * digits_value 0 z)
  end.

(** [s.toLowerCase()] on the code units [0..255]: the letters [A] to [Z]
    and the capital letters of Latin-1 ([192] to [222], the multiplication
    sign [215] excepted) are moved up by [32]. *)
Definition toLowerCase_char (c : ascii) : ascii :=
  let n := nat_of_ascii c in
  if ((65 <=? n)%nat && (n <=? 90)%nat)
     || ((192 <=? n)%nat && (n <=? 222)%nat && negb (n =? 215)%nat)
  then ascii_of_nat (n + 32)
  else c.

Fixpoint toLowerCase (s : string) : string :=
  match s with
  | EmptyString => EmptyString
  | String c s' => String (toLowerCase_char c) (toLowerCase s')
  end.

(** Regular expressions, as far as the sources use them: classes of
    characters, sequence, alternative and repetition. *)
Inductive RegExp : Type :=
  | Void
  | Eps
  | Class (p : ascii -> bool)
  | Cat (r1 r2 : RegExp)
  | Alt (r1 r2 : RegExp)
  | Star (r : RegExp).

(** [r+] *)
Definition Plus (r : RegExp) : RegExp := Cat r (Star r).

(** [r] matches the empty string. *)
Fixpoint nullable (r : RegExp) : bool :=
  match r with
  | Void => false
  | Eps => true
  | Class _ => false
  | Cat r1 r2 => nullable r1 && nullable r2
  | Alt r1 r2 => nullable r1 || nullable r2
  | Star _ => true
  end.

(** What is left of [r] to match after the character [c]. *)
Fixpoint deriv (c : ascii) (r : RegExp) : RegExp :=
  match r with
  | Void => Void
  | Eps => Void
  | Class p => if p c then Eps else Void
  | Cat r1 r2 =>
      if nullable r1 then Alt (Cat (deriv c r1) r2) (deriv c r2)
      else Cat (deriv c r1) r2
  | Alt r1 r2 => Alt (deriv c r1) (deriv c r2)
  | Star r1 => Cat (deriv c r1) (Star r1)
  end.

(** [/^r$/.test(s)]: [r] matches all of [s]. *)
Fixpoint test (r : RegExp) (s : string) : bool :=
  match s with
  | EmptyString => nullable r
  | String c s' => test (deriv c r) s'
  end.

End JS.

(** ** [src/types/auth.ts] *)

Record OtpRecord : Type := mkOtpRecord {
  code : string;      (* the 6-digit OTP code *)
  createdAt : Z;      (* epoch time stamp (ms) of the generation *)
  attempts : Z        (* failed verification attempts so far *)
}.

(** The [reason] field of a failed validation. *)
Inductive FailureReason : Type :=
  | expired
  | incorrect
  | max_attempts
  | no_otp.

(** [{ success: true } | { success: false; reason: ... }] *)
Inductive OtpValidationResult : Type :=
  | Success
  | Failure (reason : FailureReason).

(** The analytics events of the application. *)
Inductive AnalyticsEvent : Type :=
  | otp_generated
  | otp_validation_success
  | otp_validation_failure
  | logout.

(** ** [src/services/otpManager.ts] *)

Module OtpManager.

Definition OTP_LENGTH : nat := 6.
Definition OTP_EXPIRY_MS : Z := 60 * 1000.
Definition MAX_ATTEMPTS : Z := 3.

Abbreviation Store := (gmap string OtpRecord).

(** [createRandomCode]; [raw] is the value of
    [Math.floor(Math.random() * Math.pow(10, OTP_LENGTH))], a natural number
    since [Math.random()] lies in [[0, 1)]. *)
Definition createRandomCode (raw : N) : string :=
  JS.padStart OTP_LENGTH "0"%char (JS.toString (Z.of_N raw)).

(** [generateOtp(email)]: the record replaces whatever the store held for
    [email]; the code is returned. *)
Definition generateOtp (email : string) (now : Z) (raw : N) (store : Store)
  : string * Store :=
  let code := createRandomCode raw in
  let record := {| code := code; createdAt := now; attempts := 0 |} in
  (code, <[email := record]> store).

(** [validateOtp(email, code)].  The parameter [code] of the source is called
    [candidate] here, [code] being the field of the record.  The statement
    [record.attempts += 1] updates the object held by the map: the store is
    returned with the record replaced. *)
Definition validateOtp (email candidate : string) (now : Z) (store : Store)
  : OtpValidationResult * Store :=
  match store !! email with
  | None => (Failure no_otp, store)
  | Some record =>
      if OTP_EXPIRY_MS <? now - createdAt record then
        (Failure expired, delete email store)
      else if MAX_ATTEMPTS <=? attempts record then
        (Failure max_attempts, store)
      else if negb (String.eqb (code record) (JS.trim candidate)) then
        let record' := {| code := code record;
                          createdAt := createdAt record;
                          attempts := attempts record + 1 |} in
        let store' := <[email := record']> store in
        if MAX_ATTEMPTS <=? attempts record' then
          (Failure max_attempts, store')
        else
          (Failure incorrect, store')
      else
        (Success, delete email store)
  end.

(** [getRemainingSeconds(email)] *)
Definition getRemainingSeconds (email : string) (now : Z) (store : Store)
  : Z * Store :=
  match store !! email with
  | None => (0, store)
  | Some record =>
      let elapsed := now - createdAt record in
      let remaining := OTP_EXPIRY_MS - elapsed in
      (if 0 <? remaining then JS.ceil_div remaining 1000 else 0, store)
  end.

(** [getRemainingAttempts(email)] *)
Definition getRemainingAttempts (email : string) (store : Store) : Z * Store :=
  match store !! email with
  | None => (0, store)
  | Some record => (Z.max 0 (MAX_ATTEMPTS - attempts record), store)
  end.

(** [clearOtp(email)] *)
Definition clearOtp (email : string) (store : Store) : unit * Store :=
  (tt, delete email store).

End OtpManager.

(** ** [src/hooks/useSessionTimer.ts] *)

Module SessionTimer.

(** [formatElapsed]: [Math.floor] of a quotient is [Z.div], the remainder [%]
    of JavaScript takes the sign of the dividend as [Z.rem] does. *)
Definition formatElapsed (ms : Z) : string :=
  let totalSeconds := ms / 1000 in
  let minutes := totalSeconds / 60 in
  let seconds := Z.rem totalSeconds 60 in
  (JS.padStart 2 "0"%char (JS.toString minutes) ++ ":"
   ++ JS.padStart 2 "0"%char (JS.toString seconds))%string.

(** The calls the hook issues to the persistence collaborator
    ([analyticsService.saveSessionStart], [analyticsService.clearSession]);
    they are fire-and-forget, so the hook only records that they were made. *)
Inductive StorageCall : Type :=
  | saveSessionStart (timestamp : Z)
  | clearSession.

(** The state the hook keeps across renders, together with the part of the
    host it acts on: the periodic tasks that are scheduled ([setInterval],
    [clearInterval]) and the calls made to the persistence collaborator, the
    latest first.  A handle returned by [setInterval] is a positive number,
    hence truthy in the guards of the source. *)
Record Hook : Type := mkHook {
  elapsed : string;                   (* useState('00:00') *)
  sessionStartRef : option Z;         (* useRef<number | null>(null) *)
  intervalRef : option positive;      (* useRef<handle | null>(null) *)
  scheduled : list positive;          (* periodic tasks running [tick] *)
  nextHandle : positive;              (* the handle [setInterval] hands out next *)
  storageCalls : list StorageCall
}.

(** The hook as [useSessionTimer] creates it. *)
Definition initial : Hook :=
  {| elapsed := "00:00"; sessionStartRef := None; intervalRef := None;
     scheduled := []; nextHandle := 1%positive; storageCalls := [] |}.

Definition setElapsed (e : string) (h : Hook) : Hook :=
  {| elapsed := e; sessionStartRef := sessionStartRef h;
     intervalRef := intervalRef h; scheduled := scheduled h;
     nextHandle := nextHandle h; storageCalls := storageCalls h |}.

Definition setSessionStartRef (a : option Z) (h : Hook) : Hook :=
  {| elapsed := elapsed h; sessionStartRef := a;
     intervalRef := intervalRef h; scheduled := scheduled h;
     nextHandle := nextHandle h; storageCalls := storageCalls h |}.

Definition setIntervalRef (i : option positive) (h : Hook) : Hook :=
  {| elapsed := elapsed h; sessionStartRef := sessionStartRef h;
     intervalRef := i; scheduled := scheduled h;
     nextHandle := nextHandle h; storageCalls := storageCalls h |}.

Definition callStorage (c : StorageCall) (h : Hook) : Hook :=
  {| elapsed := elapsed h; sessionStartRef := sessionStartRef h;
     intervalRef := intervalRef h; scheduled := scheduled h;
     nextHandle := nextHandle h; storageCalls := c :: storageCalls h |}.

(** [setInterval(tick, 1000)]: a new periodic task, its handle is returned. *)
Definition setInterval (h : Hook) : positive * Hook :=
  let id := nextHandle h in
  (id, {| elapsed := elapsed h; sessionStartRef := sessionStartRef h;
          intervalRef := intervalRef h; scheduled := id :: scheduled h;
          nextHandle := Pos.succ id; storageCalls := storageCalls h |}).

(** [clearInterval(id)] *)
Definition clearInterval (id : positive) (h : Hook) : Hook :=
  {| elapsed := elapsed h; sessionStartRef := sessionStartRef h;
     intervalRef := intervalRef h;
     scheduled := List.filter (fun j => negb (Pos.eqb j id)) (scheduled h);
     nextHandle := nextHandle h; storageCalls := storageCalls h |}.

(** [tick]; [now] is the value [Date.now()] returns in it. *)
Definition tick (now : Z) (h : Hook) : Hook :=
  match sessionStartRef h with
  | None => h
  | Some start =>
      let diff := now - start in
      setElapsed (formatElapsed diff) h
  end.

(** [startTimer(persistedStart?)]: [now] is the value of [Date.now()] in
    [persistedStart ?? Date.now()], [nowTick] the one read by the immediate
    first [tick]. *)
Definition startTimer (persistedStart : option Z) (now nowTick : Z) (h : Hook)
  : Hook :=
  match intervalRef h with
  | Some _ => h
  | None =>
      let start := match persistedStart with Some p => p | None => now end in
      let h := setSessionStartRef (Some start) h in
      let h := callStorage (saveSessionStart start) h in
      let h := tick nowTick h in
      let '(id, h) := setInterval h in
      setIntervalRef (Some id) h
  end.

(** [stopTimer] *)
Definition stopTimer (h : Hook) : Hook :=
  let h := match intervalRef h with
           | Some id => setIntervalRef None (clearInterval id h)
           | None => h
           end in
  let h := setSessionStartRef None h in
  let h := setElapsed "00:00" h in
  callStorage clearSession h.

(** The states of the application the [AppState] listener is told of. *)
Inductive AppStateStatus : Type :=
  | active
  | background
  | inactive
  | unknown
  | extension.

(** [handleAppStateChange(nextState)], the listener subscribed to [AppState];
    [now] is the value [Date.now()] returns in the [tick] it forces. *)
Definition handleAppStateChange (nextState : AppStateStatus) (now : Z)
  (h : Hook) : Hook :=
  match nextState, sessionStartRef h with
  | active, Some _ => tick now h
  | _, _ => h
  end.

(** The cleanup of the interval effect, run when the component unmounts. *)
Definition unmount (h : Hook) : Hook :=
  match intervalRef h with
  | Some id => setIntervalRef None (clearInterval id h)
  | None => h
  end.

End SessionTimer.

(** ** [src/services/analytics.ts]: the persistence of the session start *)

Module Analytics.

Definition SESSION_KEY : string := "@SecureOTP:session_start".

(** [AsyncStorage] is a store of strings under string keys.  A call to it
    resolves or rejects; the argument [ok] of the methods below tells which,
    and a call that rejects is taken to leave the storage as it was. *)
Abbreviation AsyncStorage := (gmap string string).

(** [saveSessionStart(timestamp)]: a rejected write is logged and dropped. *)
Definition saveSessionStart (timestamp : Z) (ok : bool) (st : AsyncStorage)
  : AsyncStorage :=
  if ok then <[SESSION_KEY := JS.toString timestamp]> st else st.

(** [getSessionStart()]: [None] is [null]. *)
Definition getSessionStart (ok : bool) (st : AsyncStorage)
  : option JS.number :=
  if ok then
    match st !! SESSION_KEY with
    | Some raw => if JS.truthy_string raw then Some (JS.parseInt raw) else None
    | None => None
    end
  else None.

(** [clearSession()] *)
Definition clearSession (ok : bool) (st : AsyncStorage) : AsyncStorage :=
  if ok then delete SESSION_KEY st else st.

(** The effect on the storage of a call recorded by the timer hook. *)
Definition perform (c : SessionTimer.StorageCall) (ok : bool)
  (st : AsyncStorage) : AsyncStorage :=
  match c with
  | SessionTimer.saveSessionStart timestamp => saveSessionStart timestamp ok st
  | SessionTimer.clearSession => clearSession ok st
  end.

(** The calls recorded by the hook, the latest first, performed in the order
    in which they were made, all of them resolving. *)
Definition flush (calls : list SessionTimer.StorageCall) (st : AsyncStorage)
  : AsyncStorage :=
  fold_right (fun c acc => perform c true acc) st calls.

End Analytics.

(** ** The session screen: [initSession] and the logout action *)

Module SessionScreen.

(** The state of the screen: the start time it displays and the timer hook. *)
Record Screen : Type := mkScreen {
  sessionStartTime : option Z;        (* useState<number | null>(null) *)
  timer : SessionTimer.Hook           (* useSessionTimer() *)
}.

Definition initial : Screen :=
  {| sessionStartTime := None; timer := SessionTimer.initial |}.

(** [initSession], run once on mount; [persisted] is the value
    [analyticsService.getSessionStart()] resolved to, [now] the time read for
    a fresh session and [nowTick] the time read by the first [tick]. *)
Definition initSession (persisted : option JS.number) (now nowTick : Z)
  (s : Screen) : Screen :=
  match persisted with
  | Some (JS.Num p) =>
      if JS.truthy_number (JS.Num p) then
        {| sessionStartTime := Some p;
           timer := SessionTimer.startTimer (Some p) now nowTick (timer s) |}
      else
        {| sessionStartTime := Some now;
           timer := SessionTimer.startTimer (Some now) now nowTick (timer s) |}
  | _ =>
      {| sessionStartTime := Some now;
         timer := SessionTimer.startTimer (Some now) now nowTick (timer s) |}
  end.

(** The part of the [onPress] of the logout button that acts on the timer. *)
Definition logout (s : Screen) : Screen :=
  {| sessionStartTime := sessionStartTime s;
     timer := SessionTimer.stopTimer (timer s) |}.

End SessionScreen.

(** ** The hook [useOtp] and the values [OtpScreen] derives from it *)

Module UseOtp.

(** The [meta] objects the hook passes to [analyticsService.logEvent]:
    [{ reason: result.reason }] and [{ resend: true }]. *)
Inductive Meta : Type :=
  | reasonMeta (reason : FailureReason)
  | resendMeta.

(** A call [analyticsService.logEvent(event, email, meta)]. *)
Record LogCall : Type := mkLogCall {
  event : AnalyticsEvent;
  logEmail : string;
  meta : option Meta
}.

(** The state of the hook, and the part of its environment it acts on: the
    store of the [otpManager] singleton, the periodic tasks that are
    scheduled and the calls made to the analytics service, the latest
    first. *)
Record Hook : Type := mkHook {
  otpInput : string;                  (* useState('') *)
  countdown : Z;                      (* useState(60) *)
  remainingAttempts : Z;              (* useState(3) *)
  message : string;                   (* useState('') *)
  verified : bool;                    (* useState(false) *)
  loading : bool;                     (* useState(false) *)
  countdownRef : option positive;     (* useRef<handle | null>(null) *)
  manager : OtpManager.Store;
  scheduled : list positive;
  nextHandle : positive;
  logged : list LogCall
}.

(** The hook at its first render, over the store [store]. *)
Definition initial (store : OtpManager.Store) : Hook :=
  {| otpInput := ""; countdown := 60; remainingAttempts := 3; message := "";
     verified := false; loading := false; countdownRef := None;
     manager := store; scheduled := []; nextHandle := 1%positive;
     logged := [] |}.

Definition setOtpInput (v : string) (h : Hook) : Hook :=
  mkHook v (countdown h) (remainingAttempts h) (message h) (verified h)
    (loading h) (countdownRef h) (manager h) (scheduled h) (nextHandle h)
    (logged h).

Definition setCountdown (v : Z) (h : Hook) : Hook :=
  mkHook (otpInput h) v (remainingAttempts h) (message h) (verified h)
    (loading h) (countdownRef h) (manager h) (scheduled h) (nextHandle h)
    (logged h).

Definition setRemainingAttempts (v : Z) (h : Hook) : Hook :=
  mkHook (otpInput h) (countdown h) v (message h) (verified h)
    (loading h) (countdownRef h) (manager h) (scheduled h) (nextHandle h)
    (logged h).

Definition setMessage (v : string) (h : Hook) : Hook :=
  mkHook (otpInput h) (countdown h) (remainingAttempts h) v (verified h)
    (loading h) (countdownRef h) (manager h) (scheduled h) (nextHandle h)
    (logged h).

Definition setVerified (v : bool) (h : Hook) : Hook :=
  mkHook (otpInput h) (countdown h) (remainingAttempts h) (message h) v
    (loading h) (countdownRef h) (manager h) (scheduled h) (nextHandle h)
    (logged h).

Definition setLoading (v : bool) (h : Hook) : Hook :=
  mkHook (otpInput h) (countdown h) (remainingAttempts h) (message h)
    (verified h) v (countdownRef h) (manager h) (scheduled h) (nextHandle h)
    (logged h).

Definition setCountdownRef (v : option positive) (h : Hook) : Hook :=
  mkHook (otpInput h) (countdown h) (remainingAttempts h) (message h)
    (verified h) (loading h) v (manager h) (scheduled h) (nextHandle h)
    (logged h).

Definition setManager (v : OtpManager.Store) (h : Hook) : Hook :=
  mkHook (otpInput h) (countdown h) (remainingAttempts h) (message h)
    (verified h) (loading h) (countdownRef h) v (scheduled h) (nextHandle h)
    (logged h).

(** [setInterval(callback, 1000)] *)
Definition setInterval (h : Hook) : positive * Hook :=
  let id := nextHandle h in
  (id, mkHook (otpInput h) (countdown h) (remainingAttempts h) (message h)
         (verified h) (loading h) (countdownRef h) (manager h)
         (id :: scheduled h) (Pos.succ id) (logged h)).

(** [clearInterval(id)] *)
Definition clearInterval (id : positive) (h : Hook) : Hook :=
  mkHook (otpInput h) (countdown h) (remainingAttempts h) (message h)
    (verified h) (loading h) (countdownRef h) (manager h)
    (List.filter (fun j => negb (Pos.eqb j id)) (scheduled h)) (nextHandle h)
    (logged h).

(** [await analyticsService.logEvent(event, email, meta)] *)
Definition logEvent (c : LogCall) (h : Hook) : Hook :=
  mkHook (otpInput h) (countdown h) (remainingAttempts h) (message h)
    (verified h) (loading h) (countdownRef h) (manager h) (scheduled h)
    (nextHandle h) (c :: logged h).

(** The callback given to [setInterval] by [startCountdown]. *)
Definition poll (email : string) (now : Z) (h : Hook) : Hook :=
  let '(remaining, store) :=
    OtpManager.getRemainingSeconds email now (manager h) in
  let h := setManager store h in
  let h := setCountdown remaining h in
  if remaining <=? 0 then
    match countdownRef h with
    | Some id => setCountdownRef None (clearInterval id h)
    | None => h
    end
  else h.

(** [startCountdown] *)
Definition startCountdown (email : string) (now : Z) (h : Hook) : Hook :=
  let h := match countdownRef h with
           | Some id => clearInterval id h
           | None => h
           end in
  let '(secs, store) :=
    OtpManager.getRemainingSeconds email now (manager h) in
  let h := setManager store h in
  let h := setCountdown secs h in
  let '(id, h) := setInterval h in
  setCountdownRef (Some id) h.

(** The cleanup of the countdown effect, run when the component unmounts. *)
Definition unmount (h : Hook) : Hook :=
  match countdownRef h with
  | Some id => setCountdownRef None (clearInterval id h)
  | None => h
  end.

(** The table [reasonMessages] of [handleVerify]. *)
Definition reasonMessages (reason : FailureReason) : string :=
  match reason with
  | expired => "⏰ OTP has expired. Please resend."
  | incorrect => "❌ Incorrect OTP. Please try again."
  | max_attempts => "🚫 Maximum attempts exceeded. Please resend OTP."
  | no_otp => "⚠️ No OTP found. Please go back and request one."
  end.

(** [handleVerify], from the press of the button to the end of the function;
    [now] is the time [validateOtp] reads. *)
Definition handleVerify (email : string) (now : Z) (h : Hook) : Hook :=
  if negb (JS.truthy_string (JS.trim (otpInput h))) then
    setMessage "Please enter the OTP." h
  else
    let h := setLoading true h in
    let '(result, store) :=
      OtpManager.validateOtp email (otpInput h) now (manager h) in
    let h := setManager store h in
    let h :=
      match result with
      | Success =>
          let h := setMessage "✅ OTP verified successfully!" h in
          let h := setVerified true h in
          logEvent (mkLogCall otp_validation_success email None) h
      | Failure reason =>
          let h := setMessage (reasonMessages reason) h in
          let '(attemptsLeft, store) :=
            OtpManager.getRemainingAttempts email (manager h) in
          let h := setManager store h in
          let h := setRemainingAttempts attemptsLeft h in
          logEvent (mkLogCall otp_validation_failure email
                      (Some (reasonMeta reason))) h
      end in
    setLoading false h.

(** [handleResend]; [now] and [raw] are the time and the random number
    [generateOtp] reads, [nowCountdown] the time [startCountdown] reads. *)
Definition handleResend (email : string) (now : Z) (raw : N)
  (nowCountdown : Z) (h : Hook) : Hook :=
  let '(newCode, store) :=
    OtpManager.generateOtp email now raw (manager h) in
  let h := setManager store h in
  let h := setOtpInput "" h in
  let h := setMessage ("🔄 New OTP sent! (DEV: " ++ newCode ++ ")") h in
  let h := setRemainingAttempts 3 h in
  let h := startCountdown email nowCountdown h in
  logEvent (mkLogCall otp_generated email (Some resendMeta)) h.

(** The values [OtpScreen] derives from the hook. *)
Definition isExpired (h : Hook) : bool := countdown h <=? 0.

Definition attemptsExhausted (h : Hook) : bool := remainingAttempts h <=? 0.

Definition canVerify (h : Hook) : bool :=
  negb (loading h) && negb (verified h) && negb (isExpired h)
  && negb (attemptsExhausted h).

End UseOtp.

(** ** The login screen: [EMAIL_REGEX] and [handleSendOtp] *)

Module LoginScreen.

(** The class [[^\s@]]. *)
Definition not_space_at (c : ascii) : bool :=
  negb (JS.is_white_space c || Ascii.eqb c "@").

(** [/^[^\s@]+@[^\s@]+\.[^\s@]+$/] *)
Definition EMAIL_REGEX : JS.RegExp :=
  JS.Cat (JS.Plus (JS.Class not_space_at))
    (JS.Cat (JS.Class (Ascii.eqb "@"))
       (JS.Cat (JS.Plus (JS.Class not_space_at))
          (JS.Cat (JS.Class (Ascii.eqb "."))
             (JS.Plus (JS.Class not_space_at))))).

(** What the screen shows or does at the end of [handleSendOtp]: the alert
    for an invalid email, the alert of the development mode, whose button
    navigates to the OTP screen, or the navigation itself. *)
Inductive Outcome : Type :=
  | alertInvalidEmail
  | alertDevOtp (code : string) (email : string)
  | navigateOtp (email : string).

(** The state of the screen and the part of its environment it acts on. *)
Record Screen : Type := mkScreen {
  email : string;                     (* useState('') *)
  loading : bool;                     (* useState(false) *)
  manager : OtpManager.Store;
  logged : list UseOtp.LogCall;
  outcome : option Outcome
}.

Definition initial (store : OtpManager.Store) : Screen :=
  {| email := ""; loading := false; manager := store; logged := [];
     outcome := None |}.

Definition setEmail (v : string) (s : Screen) : Screen :=
  mkScreen v (loading s) (manager s) (logged s) (outcome s).

(** [isEmailValid] *)
Definition isEmailValid (s : Screen) : bool :=
  JS.test EMAIL_REGEX (JS.trim (email s)).

(** [handleSendOtp], from the press of the button to the end of the
    function; [dev] is [__DEV__], [now] and [raw] are the time and the
    random number [generateOtp] reads. *)
Definition handleSendOtp (dev : bool) (now : Z) (raw : N) (s : Screen)
  : Screen :=
  let trimmedEmail := JS.toLowerCase (JS.trim (email s)) in
  if negb (isEmailValid s) then
    mkScreen (email s) (loading s) (manager s) (logged s)
      (Some alertInvalidEmail)
  else
    let '(code, store) :=
      OtpManager.generateOtp trimmedEmail now raw (manager s) in
    let logged' :=
      UseOtp.mkLogCall otp_generated trimmedEmail None :: logged s in
    mkScreen (email s) false store logged'
      (Some (if dev then alertDevOtp code trimmedEmail
             else navigateOtp trimmedEmail)).

End LoginScreen.

(** ** Notions used in the statements *)

Import OtpManager.

(** The record [validateOtp] leaves in the store after a failed comparison. *)
Definition failed_attempt (record : OtpRecord) : OtpRecord :=
  {| code := code record; createdAt := createdAt record;
     attempts := attempts record + 1 |}.

(** The records of the store carry codes made by [createRandomCode]. *)
Definition generated_code (record : OtpRecord) : Prop :=
  exists raw, code record = createRandomCode raw.

Definition store_codes_generated (store : Store) : Prop :=
  map_Forall (fun _ record => generated_code record) store.

(** The attempts counter of a record lies between [0] and [MAX_ATTEMPTS]. *)
Definition attempts_in_range (record : OtpRecord) : Prop :=
  0 <= attempts record <= MAX_ATTEMPTS.

Definition store_attempts_in_range (store : Store) : Prop :=
  map_Forall (fun _ record => attempts_in_range record) store.

#[global] Instance attempts_in_range_dec record :
  Decision (attempts_in_range record).
Proof. unfold attempts_in_range. apply _. Defined.

#[global] Instance store_attempts_in_range_dec store :
  Decision (store_attempts_in_range store).
Proof. unfold store_attempts_in_range. apply _. Defined.

(** The public operations of the manager, with the values they read from the
    clock and from the random source. *)
Inductive Operation : Type :=
  | Generate (email : string) (now : Z) (raw : N)
  | Validate (email candidate : string) (now : Z)
  | RemainingSeconds (email : string) (now : Z)
  | RemainingAttempts (email : string)
  | Clear (email : string).

(** The store an operation leaves behind. *)
Definition run (op : Operation) (store : Store) : Store :=
  match op with
  | Generate email now raw => snd (generateOtp email now raw store)
  | Validate email candidate now => snd (validateOtp email candidate now store)
  | RemainingSeconds email now => snd (getRemainingSeconds email now store)
  | RemainingAttempts email => snd (getRemainingAttempts email store)
  | Clear email => snd (clearOtp email store)
  end.

Definition run_all (ops : list Operation) (store : Store) : Store :=
  fold_left (fun st op => run op st) ops store.

Import SessionTimer.

(** The decimal digit [d], for [0 <= d <= 9]. *)
Definition digit (d : Z) : ascii := ascii_of_nat (48 + Z.to_nat d).

(** The number [n], [0 <= n < 100], written with two digits. *)
Definition two_digits (n : Z) : string :=
  String (digit (n / 10)) (String (digit (n mod 10)) EmptyString).

(** Every character of [s] is a decimal digit. *)
Fixpoint all_digits (s : string) : bool :=
  match s with
  | EmptyString => true
  | String c s' => JS.is_digit c && all_digits s'
  end.

(** The identity an operation of the manager is about. *)
Definition op_email (op : Operation) : string :=
  match op with
  | Generate email _ _ => email
  | Validate email _ _ => email
  | RemainingSeconds email _ => email
  | RemainingAttempts email => email
  | Clear email => email
  end.

(** [op] is a call of [generateOtp] for [email]. *)
Definition generates (email : string) (op : Operation) : bool :=
  match op with
  | Generate email' _ _ => String.eqb email' email
  | _ => false
  end.

(** The store holds no usable record for [email]: none at all, or a locked
    one. *)
Definition blocked (email : string) (store : Store) : Prop :=
  match store !! email with
  | None => True
  | Some record => MAX_ATTEMPTS <= attempts record
  end.

(** What can happen to the timer hook: the calls of its two functions, a
    firing of the periodic task, a change of the application state and the
    unmounting of the component. *)
Inductive TimerEvent : Type :=
  | EvStart (persistedStart : option Z) (now nowTick : Z)
  | EvStop
  | EvTick (now : Z)
  | EvAppState (nextState : AppStateStatus) (now : Z)
  | EvUnmount.

Definition timer_step (e : TimerEvent) (h : Hook) : Hook :=
  match e with
  | EvStart persistedStart now nowTick => startTimer persistedStart now nowTick h
  | EvStop => stopTimer h
  | EvTick now => tick now h
  | EvAppState nextState now => handleAppStateChange nextState now h
  | EvUnmount => SessionTimer.unmount h
  end.

Definition timer_run (es : list TimerEvent) (h : Hook) : Hook :=
  fold_left (fun h e => timer_step e h) es h.

(** The events that only refresh the display. *)
Definition refreshes (e : TimerEvent) : bool :=
  match e with
  | EvTick _ | EvAppState _ _ => true
  | _ => false
  end.

(** The periodic tasks scheduled are the one whose handle the hook holds,
    the handles handed out so far are below [nextHandle], and a hook that
    holds a handle has an anchor. *)
Definition timer_ok (h : Hook) : Prop :=
  scheduled h = option_list (intervalRef h)
  /\ (forall id, intervalRef h = Some id ->
        (id < nextHandle h)%positive /\ sessionStartRef h <> None).

(** What can happen to the hook [useOtp] of the screen of [email]: the user
    types, presses the verify or the resend button, the countdown task
    fires, the countdown effect runs or is cleaned up. *)
Inductive OtpEvent : Type :=
  | EvInput (v : string)
  | EvVerify (now : Z)
  | EvResend (now : Z) (raw : N) (nowCountdown : Z)
  | EvPoll (now : Z)
  | EvStartCountdown (now : Z)
  | EvUnmountOtp.

Definition otp_step (email : string) (e : OtpEvent) (h : UseOtp.Hook)
  : UseOtp.Hook :=
  match e with
  | EvInput v => UseOtp.setOtpInput v h
  | EvVerify now => UseOtp.handleVerify email now h
  | EvResend now raw nowCountdown =>
      UseOtp.handleResend email now raw nowCountdown h
  | EvPoll now => UseOtp.poll email now h
  | EvStartCountdown now => UseOtp.startCountdown email now h
  | EvUnmountOtp => UseOtp.unmount h
  end.

Definition otp_run (email : string) (es : list OtpEvent) (h : UseOtp.Hook)
  : UseOtp.Hook :=
  fold_left (fun h e => otp_step email e h) es h.

(** The periodic tasks scheduled by the hook are the one whose handle it
    holds, and the handles handed out so far are below [nextHandle]. *)
Definition otp_ok (h : UseOtp.Hook) : Prop :=
  UseOtp.scheduled h = option_list (UseOtp.countdownRef h)
  /\ (forall id, UseOtp.countdownRef h = Some id ->
        (id < UseOtp.nextHandle h)%positive).

(** The strings a regular expression matches. *)
Fixpoint lang (r : JS.RegExp) (s : string) : Prop :=
  match r with
  | JS.Void => False
  | JS.Eps => s = ""
  | JS.Class p => exists c, s = String c "" /\ p c = true
  | JS.Cat r1 r2 => exists s1 s2, s = s1 ++ s2 /\ lang r1 s1 /\ lang r2 s2
  | JS.Alt r1 r2 => lang r1 s \/ lang r2 s
  | JS.Star r1 =>
      exists pieces,
        s = fold_right String.append "" pieces
        /\ Forall (fun x => lang r1 x /\ x <> "") pieces
  end.

(** Every character of [s] satisfies [p]. *)
Fixpoint all_chars (p : ascii -> bool) (s : string) : bool :=
  match s with
  | EmptyString => true
  | String c s' => p c && all_chars p s'
  end.

(** The number of occurrences of the character [c] in [s]. *)
Fixpoint occurrences (c : ascii) (s : string) : nat :=
  match s with
  | EmptyString => 0
  | String c' s' => (if Ascii.eqb c' c then 1 else 0) + occurrences c s'
  end.

(** A part of an email address: not empty, without white space or ["@"]. *)
Definition email_part (s : string) : Prop :=
  s <> "" /\ all_chars LoginScreen.not_space_at s = true.

(** * Properties *)

(** ** The JavaScript primitives *)

Section Primitives.

Import JS.

Lemma length_app (s t : string) :
  String.length (s ++ t) = (String.length s + String.length t)%nat.
Proof. induction s as [|c s IH]; simpl; [reflexivity | now rewrite IH]. Qed.

Lemma length_replicate_char n c : String.length (replicate_char n c) = n.
Proof. induction n as [|n IH]; simpl; [reflexivity | now rewrite IH]. Qed.

Lemma length_padStart target c s :
  String.length (padStart target c s) = Nat.max target (String.length s).
Proof. unfold padStart. rewrite length_app, length_replicate_char. lia. Qed.

Lemma padStart_long target c s :
  (target <= String.length s)%nat -> padStart target c s = s.
Proof.
  intros H. unfold padStart.
  replace (target - String.length s)%nat with 0%nat by lia. reflexivity.
Qed.

Lemma no_white_space_app s t :
  no_white_space (s ++ t) = no_white_space s && no_white_space t.
Proof.
  induction s as [|c s IH]; simpl; [reflexivity |].
  now rewrite IH, andb_assoc.
Qed.

Lemma no_white_space_replicate n c :
  is_white_space c = false -> no_white_space (replicate_char n c) = true.
Proof.
  intros Hc. induction n as [|n IH]; simpl; [reflexivity |].
  now rewrite Hc, IH.
Qed.

Lemma no_white_space_uint d :
  no_white_space (NilEmpty.string_of_uint d) = true.
Proof. induction d; simpl; auto. Qed.

Lemma no_white_space_toString n : no_white_space (toString n) = true.
Proof.
  unfold toString.
  destruct (Z.to_int n) as [d|d]; simpl; apply no_white_space_uint.
Qed.

Lemma trimStart_no_white_space s : no_white_space s = true -> trimStart s = s.
Proof.
  destruct s as [|c s]; simpl; [reflexivity |].
  intros [Hc _]%andb_true_iff. apply negb_true_iff in Hc. now rewrite Hc.
Qed.

Lemma trimEnd_no_white_space s : no_white_space s = true -> trimEnd s = s.
Proof.
  induction s as [|c s IH]; simpl; [reflexivity |].
  intros [Hc Hs]%andb_true_iff. apply negb_true_iff in Hc.
  rewrite (IH Hs), Hc. now destruct s.
Qed.

(** A string without white space is left as it is by [trim]. *)
Lemma trim_no_white_space s : no_white_space s = true -> trim s = s.
Proof.
  intros H. unfold trim.
  now rewrite (trimStart_no_white_space _ H), (trimEnd_no_white_space _ H).
Qed.

(** The empty string and a string of white space trim to the empty string. *)
Lemma trim_empty : trim "" = "".
Proof. reflexivity. Qed.

(** [ceil_div a b] is the least integer [k] with [a <= b * k]. *)
Lemma ceil_div_spec a b :
  0 < b -> b * (ceil_div a b - 1) < a <= b * ceil_div a b.
Proof.
  intros Hb. unfold ceil_div.
  pose proof (Z.div_mod (- a) b ltac:(lia)) as Hdm.
  pose proof (Z.mod_pos_bound (- a) b Hb) as Hm.
  nia.
Qed.

Lemma ceil_div_unique a b k :
  0 < b -> b * (k - 1) < a <= b * k -> ceil_div a b = k.
Proof.
  intros Hb Hk. pose proof (ceil_div_spec a b Hb) as Hc. nia.
Qed.

End Primitives.

(** ** The OTP store *)

(** Goals that are arithmetic once the constants of the manager are unfolded. *)
Ltac by_constants :=
  unfold OTP_EXPIRY_MS, MAX_ATTEMPTS, OTP_LENGTH in *; simpl in *; lia.

Section OtpStore.

Import JS.

Lemma createRandomCode_no_white_space raw :
  no_white_space (createRandomCode raw) = true.
Proof.
  unfold createRandomCode, padStart.
  rewrite no_white_space_app, no_white_space_toString.
  now rewrite no_white_space_replicate.
Qed.

(** A generated code is not changed by [trim]. *)
Lemma trim_createRandomCode raw :
  trim (createRandomCode raw) = createRandomCode raw.
Proof. apply trim_no_white_space, createRandomCode_no_white_space. Qed.

Lemma length_createRandomCode raw :
  (OTP_LENGTH <= String.length (createRandomCode raw))%nat.
Proof. unfold createRandomCode. rewrite length_padStart. lia. Qed.

Lemma generateOtp_lookup email now raw store :
  snd (generateOtp email now raw store) !! email
  = Some {| code := createRandomCode raw; createdAt := now; attempts := 0 |}.
Proof. unfold generateOtp. simpl. apply lookup_insert_eq. Qed.

Lemma generateOtp_code email now raw store :
  fst (generateOtp email now raw store) = createRandomCode raw.
Proof. reflexivity. Qed.

Context (email : string) (store : Store) (record : OtpRecord).
Context (Hrecord : store !! email = Some record).

(** The five branches of [validateOtp], in the order of the source. *)

Lemma validateOtp_no_otp email' candidate now :
  store !! email' = None ->
  validateOtp email' candidate now store = (Failure no_otp, store).
Proof. intros H. unfold validateOtp. now rewrite H. Qed.

Lemma validateOtp_expired candidate now :
  OTP_EXPIRY_MS < now - createdAt record ->
  validateOtp email candidate now store = (Failure expired, delete email store).
Proof.
  intros He. unfold validateOtp. rewrite Hrecord.
  apply Z.ltb_lt in He. now rewrite He.
Qed.

Lemma validateOtp_locked candidate now :
  now - createdAt record <= OTP_EXPIRY_MS ->
  MAX_ATTEMPTS <= attempts record ->
  validateOtp email candidate now store = (Failure max_attempts, store).
Proof.
  intros He Ha. unfold validateOtp. rewrite Hrecord.
  apply Z.ltb_ge in He. apply Z.leb_le in Ha. now rewrite He, Ha.
Qed.

Lemma validateOtp_mismatch candidate now :
  now - createdAt record <= OTP_EXPIRY_MS ->
  attempts record < MAX_ATTEMPTS ->
  trim candidate <> code record ->
  validateOtp email candidate now store
  = (Failure (if MAX_ATTEMPTS <=? attempts record + 1
              then max_attempts else incorrect),
     <[email := failed_attempt record]> store).
Proof.
  intros He Ha Hc. unfold validateOtp. rewrite Hrecord.
  apply Z.ltb_ge in He. apply Z.leb_gt in Ha. rewrite He, Ha.
  destruct (String.eqb_spec (code record) (trim candidate)) as [Heq|_];
    [now elim Hc |].
  simpl. now destruct (MAX_ATTEMPTS <=? attempts record + 1).
Qed.

Lemma validateOtp_match candidate now :
  now - createdAt record <= OTP_EXPIRY_MS ->
  attempts record < MAX_ATTEMPTS ->
  trim candidate = code record ->
  validateOtp email candidate now store = (Success, delete email store).
Proof.
  intros He Ha Hc. unfold validateOtp. rewrite Hrecord.
  apply Z.ltb_ge in He. apply Z.leb_gt in Ha. rewrite He, Ha.
  now rewrite Hc, String.eqb_refl.
Qed.

End OtpStore.

(** *** The order of the checks *)

(** C1.  A record that is at once expired ([now - createdAt] above 60,000 ms)
    and locked ([attempts >= 3]) is reported as [expired] and deleted.  The
    expiry check comes first for every record and every candidate, and on a
    record that is not expired the attempts check comes before the comparison
    of the codes: a locked record yields [max_attempts] and is left as it is
    whatever the candidate, the stored code included. *)
Theorem validateOtp_check_order email candidate now store record :
  store !! email = Some record ->
  (OTP_EXPIRY_MS < now - createdAt record ->
   MAX_ATTEMPTS <= attempts record ->
   validateOtp email candidate now store = (Failure expired, delete email store)
   /\ delete email store !! email = None)
  /\ (OTP_EXPIRY_MS < now - createdAt record ->
      validateOtp email candidate now store
      = (Failure expired, delete email store))
  /\ (now - createdAt record <= OTP_EXPIRY_MS ->
      MAX_ATTEMPTS <= attempts record ->
      validateOtp email candidate now store = (Failure max_attempts, store)).
Proof.
  intros Hrecord. repeat split.
  - now apply validateOtp_expired with (record := record).
  - apply lookup_delete_eq.
  - now apply validateOtp_expired.
  - now apply validateOtp_locked.
Qed.

(** A record locked by three wrong codes, expired at 60,001 ms after its
    creation and not yet at 60,000 ms; the candidate is the stored code. *)
Lemma validateOtp_check_order_witness :
  let record := {| code := "000042"; createdAt := 1000; attempts := 3 |} in
  let store :=
    run_all [Generate "a@x.com" 1000 42; Validate "a@x.com" "1" 2000;
             Validate "a@x.com" "2" 3000; Validate "a@x.com" "3" 4000] ∅ in
  store !! "a@x.com" = Some record
  /\ validateOtp "a@x.com" "000042" 61001 store
     = (Failure expired, delete "a@x.com" store)
  /\ validateOtp "a@x.com" "000042" 61000 store = (Failure max_attempts, store).
Proof.
  intros record store.
  assert (Hrecord : store !! "a@x.com" = Some record)
    by (vm_compute; reflexivity).
  split; [exact Hrecord |]. split.
  - destruct (validateOtp_check_order "a@x.com" "000042" 61001 store record
                Hrecord) as [H _].
    apply H; by_constants.
  - destruct (validateOtp_check_order "a@x.com" "000042" 61000 store record
                Hrecord) as [_ [_ H]].
    apply H; by_constants.
Defined.

(** *** Wrong codes and the lock *)

(** From a record without failed attempts: two mismatches are [incorrect],
    the third is [max_attempts], and so is every later call, which finds the
    record locked and leaves it untouched. *)
Lemma wrong_codes_from_zero email store record c1 c2 c3 c4 t1 t2 t3 t4 :
  store !! email = Some record ->
  attempts record = 0 ->
  Forall (fun t => t - createdAt record <= OTP_EXPIRY_MS) [t1; t2; t3; t4] ->
  Forall (fun c => JS.trim c <> code record) [c1; c2; c3; c4] ->
  let r1 := validateOtp email c1 t1 store in
  let r2 := validateOtp email c2 t2 (snd r1) in
  let r3 := validateOtp email c3 t3 (snd r2) in
  let r4 := validateOtp email c4 t4 (snd r3) in
  [fst r1; fst r2; fst r3; fst r4]
  = [Failure incorrect; Failure incorrect; Failure max_attempts;
     Failure max_attempts]
  /\ snd r4 = snd r3
  /\ snd r3 !! email
     = Some {| code := code record; createdAt := createdAt record;
               attempts := 3 |}.
Proof.
  intros Hrecord Hzero Ht Hc r1 r2 r3 r4.
  repeat match goal with
         | H : Forall _ (_ :: _) |- _ => apply Forall_cons_iff in H; destruct H
         end.
  destruct record as [cd cr at0]. simpl in *. subst at0.
  assert (E1 : r1 = (Failure incorrect,
                     <[email := mkOtpRecord cd cr 1]> store)).
  { subst r1. now rewrite (validateOtp_mismatch email store _ Hrecord). }
  assert (E2 : r2 = (Failure incorrect,
                     <[email := mkOtpRecord cd cr 2]> (snd r1))).
  { subst r2. rewrite E1. simpl.
    now rewrite (validateOtp_mismatch email _ _ (lookup_insert_eq _ _ _)). }
  assert (E3 : r3 = (Failure max_attempts,
                     <[email := mkOtpRecord cd cr 3]> (snd r2))).
  { subst r3. rewrite E2. simpl.
    now rewrite (validateOtp_mismatch email _ _ (lookup_insert_eq _ _ _)). }
  assert (E4 : r4 = (Failure max_attempts, snd r3)).
  { subst r4. rewrite E3. simpl.
    now rewrite (validateOtp_locked email _ _ (lookup_insert_eq _ _ _)). }
  clearbody r1 r2 r3 r4. subst r4 r3 r2 r1. simpl.
  split; [reflexivity |]. split; [reflexivity |]. apply lookup_insert_eq.
Qed.

(** C2.  On a freshly generated record, validated four times with wrong codes
    before it expires, the outcomes are [incorrect], [incorrect],
    [max_attempts], [max_attempts]: the call that brings the counter to the
    threshold reports the lock, and the fourth call leaves the store, and so
    the counter, which stays at 3, as the third left it. *)
Theorem three_wrong_codes_lock email t0 raw store0 c1 c2 c3 c4 t1 t2 t3 t4 :
  let code := fst (generateOtp email t0 raw store0) in
  let store := snd (generateOtp email t0 raw store0) in
  let r1 := validateOtp email c1 t1 store in
  let r2 := validateOtp email c2 t2 (snd r1) in
  let r3 := validateOtp email c3 t3 (snd r2) in
  let r4 := validateOtp email c4 t4 (snd r3) in
  Forall (fun t => t - t0 <= OTP_EXPIRY_MS) [t1; t2; t3; t4] ->
  Forall (fun c => JS.trim c <> code) [c1; c2; c3; c4] ->
  [fst r1; fst r2; fst r3; fst r4]
  = [Failure incorrect; Failure incorrect; Failure max_attempts;
     Failure max_attempts]
  /\ snd r4 = snd r3
  /\ attempts <$> snd r3 !! email = Some 3
  /\ attempts <$> snd r4 !! email = Some 3.
Proof.
  intros code store r1 r2 r3 r4 Ht Hc.
  pose proof (generateOtp_lookup email t0 raw store0) as Hrecord.
  destruct (wrong_codes_from_zero email store _ c1 c2 c3 c4 t1 t2 t3 t4
              Hrecord eq_refl Ht Hc) as (Hout & Hsame & Hlook).
  fold r1 r2 r3 r4 in Hout, Hsame, Hlook.
  split; [exact Hout |]. split; [exact Hsame |].
  rewrite Hsame, Hlook. split; reflexivity.
Qed.

Lemma three_wrong_codes_lock_witness :
  let store := snd (generateOtp "a@x.com" 1000 42 ∅) in
  let r1 := validateOtp "a@x.com" "" 2000 store in
  let r2 := validateOtp "a@x.com" "000041" 3000 (snd r1) in
  let r3 := validateOtp "a@x.com" " 42 " 4000 (snd r2) in
  let r4 := validateOtp "a@x.com" "999999" 61000 (snd r3) in
  [fst r1; fst r2; fst r3; fst r4]
  = [Failure incorrect; Failure incorrect; Failure max_attempts;
     Failure max_attempts]
  /\ snd r4 = snd r3
  /\ attempts <$> snd r3 !! "a@x.com" = Some 3
  /\ attempts <$> snd r4 !! "a@x.com" = Some 3.
Proof.
  apply (three_wrong_codes_lock "a@x.com" 1000 42 ∅
           "" "000041" " 42 " "999999" 2000 3000 4000 61000).
  - repeat constructor; by_constants.
  - repeat constructor; vm_compute; discriminate.
Defined.

(** *** Success is single use *)

(** C3.  The stored code of a generated record, presented before the record
    expires and while fewer than 3 attempts have failed, is accepted: the
    outcome is [Success] and the record is deleted, so that presenting the
    same code again, at any time, yields [no_otp]. *)
Theorem correct_code_single_use email now now' store record :
  store !! email = Some record ->
  generated_code record ->
  now - createdAt record <= OTP_EXPIRY_MS ->
  attempts record < MAX_ATTEMPTS ->
  let r1 := validateOtp email (code record) now store in
  let r2 := validateOtp email (code record) now' (snd r1) in
  r1 = (Success, delete email store)
  /\ snd r1 !! email = None
  /\ r2 = (Failure no_otp, snd r1).
Proof.
  intros Hrecord [raw Hraw] He Ha r1 r2.
  assert (E1 : r1 = (Success, delete email store)).
  { subst r1. apply validateOtp_match with (record := record); auto.
    rewrite Hraw. apply trim_createRandomCode. }
  clearbody r1. subst r1 r2. simpl.
  split; [reflexivity |]. split; [apply lookup_delete_eq |].
  apply validateOtp_no_otp, lookup_delete_eq.
Qed.

Lemma correct_code_single_use_witness :
  let g := generateOtp "a@x.com" 1000 42 ∅ in
  let r1 := validateOtp "a@x.com" (fst g) 61000 (snd g) in
  let r2 := validateOtp "a@x.com" (fst g) 61001 (snd r1) in
  r1 = (Success, delete "a@x.com" (snd g))
  /\ snd r1 !! "a@x.com" = None
  /\ r2 = (Failure no_otp, snd r1).
Proof.
  intros g.
  apply (correct_code_single_use "a@x.com" 61000 61001 (snd g)
           {| code := createRandomCode 42; createdAt := 1000; attempts := 0 |}).
  - apply generateOtp_lookup.
  - exists 42%N. reflexivity.
  - by_constants.
  - by_constants.
Defined.

(** *** Expiry *)

(** C4, as the code has it.  A record created more than 60,000 ms before the
    validation is reported as [expired] whatever the candidate, the stored
    code included, and it is removed: the next validation yields [no_otp]. *)
Theorem expired_record_removed email candidate candidate' now now' store record :
  store !! email = Some record ->
  OTP_EXPIRY_MS < now - createdAt record ->
  let r1 := validateOtp email candidate now store in
  let r2 := validateOtp email candidate' now' (snd r1) in
  r1 = (Failure expired, delete email store)
  /\ snd r1 !! email = None
  /\ r2 = (Failure no_otp, snd r1).
Proof.
  intros Hrecord He r1 r2.
  assert (E1 : r1 = (Failure expired, delete email store))
    by (subst r1; now apply validateOtp_expired with (record := record)).
  clearbody r1. subst r1 r2. simpl.
  split; [reflexivity |]. split; [apply lookup_delete_eq |].
  apply validateOtp_no_otp, lookup_delete_eq.
Qed.

Lemma expired_record_removed_witness :
  let g := generateOtp "a@x.com" 1000 42 ∅ in
  let r1 := validateOtp "a@x.com" (fst g) 61001 (snd g) in
  let r2 := validateOtp "a@x.com" (fst g) 61002 (snd r1) in
  r1 = (Failure expired, delete "a@x.com" (snd g))
  /\ snd r1 !! "a@x.com" = None
  /\ r2 = (Failure no_otp, snd r1).
Proof.
  intros g.
  apply (expired_record_removed "a@x.com" (fst g) (fst g) 61001 61002 (snd g)
           {| code := createRandomCode 42; createdAt := 1000; attempts := 0 |}).
  - apply generateOtp_lookup.
  - by_constants.
Defined.

(** At exactly 60,000 ms the record is not expired: the test of the source is
    [now - createdAt > OTP_EXPIRY_MS], and the stored code is accepted. *)
Lemma expiry_boundary_counterexample :
  let g := generateOtp "a@x.com" 1000 42 ∅ in
  snd g !! "a@x.com"
  = Some {| code := "000042"; createdAt := 1000; attempts := 0 |}
  /\ 60000 <= 61000 - 1000
  /\ validateOtp "a@x.com" "000042" 61000 (snd g)
     = (Success, delete "a@x.com" (snd g))
  /\ fst (validateOtp "a@x.com" "000042" 61000 (snd g)) <> Failure expired.
Proof.
  intros g.
  assert (Hrecord : snd g !! "a@x.com"
          = Some {| code := "000042"; createdAt := 1000; attempts := 0 |})
    by apply generateOtp_lookup.
  assert (Hv : validateOtp "a@x.com" "000042" 61000 (snd g)
               = (Success, delete "a@x.com" (snd g))).
  { apply validateOtp_match with (record := mkOtpRecord "000042" 1000 0);
      [exact Hrecord | by_constants
      | by_constants | reflexivity]. }
  split; [exact Hrecord |]. split; [lia |]. split; [exact Hv |].
  rewrite Hv. discriminate.
Qed.

(** *** Generating again *)

(** The random source may return the same number twice: the second record
    then carries the code of the first, which is accepted. *)
Lemma regenerate_same_code_counterexample :
  let g1 := generateOtp "a@x.com" 1000 42 ∅ in
  let g2 := generateOtp "a@x.com" 2000 42 (snd g1) in
  fst (validateOtp "a@x.com" (fst g1) 3000 (snd g2)) = Success.
Proof.
  intros g1 g2.
  rewrite (validateOtp_match "a@x.com" (snd g2)
             {| code := createRandomCode 42; createdAt := 2000; attempts := 0 |});
    [reflexivity | apply generateOtp_lookup | by_constants
    | by_constants | reflexivity].
Qed.

(** C5, as the code has it.  The second [generateOtp] replaces the record of
    the first.  When the two codes differ, validating the first code
    afterwards never succeeds: the outcome is [expired] when the new record is
    older than 60,000 ms and [incorrect] otherwise, and in the latter case the
    failure is counted on the new record. *)
Theorem regenerate_invalidates email t1 raw1 t2 raw2 now store :
  let g1 := generateOtp email t1 raw1 store in
  let g2 := generateOtp email t2 raw2 (snd g1) in
  let r := validateOtp email (fst g1) now (snd g2) in
  fst g1 <> fst g2 ->
  snd g2 !! email
  = Some {| code := fst g2; createdAt := t2; attempts := 0 |}
  /\ fst r <> Success
  /\ fst r = (if OTP_EXPIRY_MS <? now - t2 then Failure expired
              else Failure incorrect).
Proof.
  intros g1 g2 r Hne.
  pose proof (generateOtp_lookup email t2 raw2 (snd g1)) as Hrecord.
  fold g2 in Hrecord.
  split; [exact Hrecord |].
  assert (E : fst r = (if OTP_EXPIRY_MS <? now - t2 then Failure expired
                       else Failure incorrect)).
  { subst r. destruct (Z.ltb_spec OTP_EXPIRY_MS (now - t2)) as [He|He].
    - now rewrite (validateOtp_expired email (snd g2) _ Hrecord).
    - rewrite (validateOtp_mismatch email (snd g2) _ Hrecord);
        [reflexivity | exact He | by_constants |].
      change (JS.trim (createRandomCode raw1) <> fst g2).
      rewrite trim_createRandomCode. exact Hne. }
  split; [| exact E].
  rewrite E. destruct (OTP_EXPIRY_MS <? now - t2); discriminate.
Qed.

Lemma regenerate_invalidates_witness :
  let g1 := generateOtp "a@x.com" 1000 42 ∅ in
  let g2 := generateOtp "a@x.com" 2000 43 (snd g1) in
  let r := validateOtp "a@x.com" (fst g1) 3000 (snd g2) in
  fst g1 <> fst g2
  /\ fst r <> Success
  /\ fst r = Failure incorrect.
Proof.
  intros g1 g2 r.
  assert (Hne : fst g1 <> fst g2) by (vm_compute; discriminate).
  split; [exact Hne |].
  destruct (regenerate_invalidates "a@x.com" 1000 42 2000 43 3000 ∅ Hne)
    as (_ & Hns & Hr).
  split; [exact Hns | exact Hr].
Defined.

(** *** The countdown *)

(** C6.  [getRemainingSeconds] leaves the store as it is and returns a number
    that is not negative: [0] without a record and for an expired record,
    and otherwise the ceiling of [(60000 - (now - createdAt)) / 1000], that
    is the least [k] with [60000 - (now - createdAt) <= 1000 * k]. *)
Theorem getRemainingSeconds_spec email now store :
  let r := getRemainingSeconds email now store in
  snd r = store
  /\ 0 <= fst r
  /\ match store !! email with
     | None => fst r = 0
     | Some record =>
         let remaining := OTP_EXPIRY_MS - (now - createdAt record) in
         (OTP_EXPIRY_MS < now - createdAt record -> fst r = 0)
         /\ (now - createdAt record <= OTP_EXPIRY_MS ->
             fst r = JS.ceil_div remaining 1000
             /\ 1000 * (fst r - 1) < remaining <= 1000 * fst r)
     end.
Proof.
  unfold getRemainingSeconds.
  destruct (store !! email) as [record|]; simpl; [| repeat split; lia].
  set (remaining := OTP_EXPIRY_MS - (now - createdAt record)).
  pose proof (ceil_div_spec remaining 1000 ltac:(lia)) as Hc.
  destruct (Z.ltb_spec 0 remaining) as [Hr|Hr].
  - repeat split; lia.
  - split; [reflexivity |]. split; [lia |]. split; [reflexivity |].
    intros He. assert (remaining = 0) as -> by (subst remaining; lia).
    vm_compute. intuition discriminate.
Qed.

(** The countdown does not grow as time advances. *)
Lemma getRemainingSeconds_mono email now now' store :
  now <= now' ->
  fst (getRemainingSeconds email now' store)
  <= fst (getRemainingSeconds email now store).
Proof.
  intros Hle. unfold getRemainingSeconds.
  destruct (store !! email) as [record|]; simpl; [| lia].
  set (a := OTP_EXPIRY_MS - (now - createdAt record)).
  set (b := OTP_EXPIRY_MS - (now' - createdAt record)).
  assert (b <= a) by (subst a b; lia).
  pose proof (ceil_div_spec a 1000 ltac:(lia)).
  pose proof (ceil_div_spec b 1000 ltac:(lia)).
  destruct (Z.ltb_spec 0 a), (Z.ltb_spec 0 b); lia.
Qed.

(** *** The attempts counter *)

Lemma attempts_in_range_failed record :
  attempts_in_range record ->
  attempts record < MAX_ATTEMPTS ->
  attempts_in_range (failed_attempt record).
Proof. unfold attempts_in_range, failed_attempt. simpl. lia. Qed.

Lemma validateOtp_attempts_in_range email candidate now store :
  store_attempts_in_range store ->
  store_attempts_in_range (snd (validateOtp email candidate now store)).
Proof.
  intros Hinv. unfold validateOtp.
  destruct (store !! email) as [record|] eqn:Hrecord; [| exact Hinv].
  destruct (OTP_EXPIRY_MS <? now - createdAt record);
    [now apply map_Forall_delete |].
  destruct (Z.leb_spec MAX_ATTEMPTS (attempts record)) as [Ha|Ha];
    [exact Hinv |].
  destruct (negb _); [| now apply map_Forall_delete].
  assert (Hnew : store_attempts_in_range
                   (<[email := failed_attempt record]> store)).
  { apply map_Forall_insert_2; [| exact Hinv].
    apply attempts_in_range_failed; [| exact Ha].
    exact (Hinv _ _ Hrecord). }
  cbv zeta. now destruct (MAX_ATTEMPTS <=? _).
Qed.

Lemma generateOtp_attempts_in_range email now raw store :
  store_attempts_in_range store ->
  store_attempts_in_range (snd (generateOtp email now raw store)).
Proof.
  intros Hinv. apply map_Forall_insert_2; [| exact Hinv].
  unfold attempts_in_range, MAX_ATTEMPTS. simpl. lia.
Qed.

Lemma run_attempts_in_range op store :
  store_attempts_in_range store ->
  store_attempts_in_range (run op store).
Proof.
  intros Hinv.
  destruct op as [email now raw|email candidate now|email now|email|email];
    simpl.
  - now apply generateOtp_attempts_in_range.
  - now apply validateOtp_attempts_in_range.
  - unfold getRemainingSeconds. now destruct (store !! email).
  - unfold getRemainingAttempts. now destruct (store !! email).
  - now apply map_Forall_delete.
Qed.

(** The counter is in range in every store the operations can build. *)
Lemma reachable_attempts_in_range ops :
  store_attempts_in_range (run_all ops ∅).
Proof.
  unfold run_all.
  assert (H : store_attempts_in_range (∅ : Store)) by apply map_Forall_empty.
  revert H. generalize (∅ : Store).
  induction ops as [|op ops IH]; simpl; intros store H; [exact H |].
  apply IH. now apply run_attempts_in_range.
Qed.

(** The codes of every store the operations can build are generated ones:
    the hypothesis [generated_code] of the statements above holds of every
    record the manager can hold. *)
Lemma run_codes_generated op store :
  store_codes_generated store ->
  store_codes_generated (run op store).
Proof.
  intros Hinv.
  destruct op as [email now raw|email candidate now|email now|email|email];
    simpl.
  - apply map_Forall_insert_2; [now exists raw | exact Hinv].
  - unfold validateOtp.
    destruct (store !! email) as [record|] eqn:Hrecord; [| exact Hinv].
    repeat match goal with
           | |- context [if ?b then _ else _] => destruct b
           end; simpl;
      try exact Hinv; try (now apply map_Forall_delete);
      (apply map_Forall_insert_2; [exact (Hinv _ _ Hrecord) | exact Hinv]).
  - unfold getRemainingSeconds. now destruct (store !! email).
  - unfold getRemainingAttempts. now destruct (store !! email).
  - now apply map_Forall_delete.
Qed.

Lemma reachable_generated_code ops email record :
  run_all ops ∅ !! email = Some record -> generated_code record.
Proof.
  unfold run_all.
  assert (H : store_codes_generated (∅ : Store)) by apply map_Forall_empty.
  revert H. generalize (∅ : Store).
  induction ops as [|op ops IH]; simpl; intros store H Hlook.
  - exact (H _ _ Hlook).
  - apply (IH (run op store)); [now apply run_codes_generated | exact Hlook].
Qed.

(** C10.  Every public operation of the manager keeps the attempts counter of
    every record of the store between 0 and 3: [generateOtp] stores a record
    with the counter at 0, [validateOtp] increments a counter only when it is
    below 3, and the other operations store no record. *)
Theorem attempts_invariant email candidate now raw store :
  store_attempts_in_range store ->
  store_attempts_in_range (snd (generateOtp email now raw store))
  /\ store_attempts_in_range (snd (validateOtp email candidate now store))
  /\ store_attempts_in_range (snd (clearOtp email store))
  /\ store_attempts_in_range (snd (getRemainingSeconds email now store))
  /\ store_attempts_in_range (snd (getRemainingAttempts email store)).
Proof.
  intros Hinv.
  split; [now apply generateOtp_attempts_in_range |].
  split; [now apply validateOtp_attempts_in_range |].
  split; [now apply map_Forall_delete |].
  unfold getRemainingSeconds, getRemainingAttempts.
  now destruct (store !! email).
Qed.

(** A third failed validation on a record that counts two of them. *)
Lemma attempts_invariant_witness :
  let store :=
    run_all [Generate "a@x.com" 1000 42; Validate "a@x.com" "1" 2000;
             Validate "a@x.com" "2" 3000] ∅ in
  store_attempts_in_range store
  /\ attempts <$> store !! "a@x.com" = Some 2
  /\ store_attempts_in_range (snd (validateOtp "a@x.com" "000043" 4000 store))
  /\ attempts <$> snd (validateOtp "a@x.com" "000043" 4000 store) !! "a@x.com"
     = Some 3.
Proof.
  intros store.
  assert (Hinv : store_attempts_in_range store)
    by (apply (bool_decide_unpack _); vm_compute; exact I).
  split; [exact Hinv |].
  split; [vm_compute; reflexivity |].
  split; [exact (proj1 (proj2 (attempts_invariant "a@x.com" "000043" 4000 0
                                 store Hinv))) |].
  vm_compute. reflexivity.
Defined.

(** ** The session timer *)

Section Timer.

Import JS.

Lemma padStart_two_digits n :
  0 <= n < 100 -> padStart 2 "0" (toString n) = two_digits n.
Proof.
  intros Hn.
  assert (Hall : List.forallb
            (fun k => String.eqb (padStart 2 "0" (toString (Z.of_nat k)))
                                 (two_digits (Z.of_nat k)))
            (List.seq 0 100) = true) by (vm_compute; reflexivity).
  rewrite List.forallb_forall in Hall.
  specialize (Hall (Z.to_nat n)). rewrite Z2Nat.id in Hall by lia.
  apply String.eqb_eq, Hall, List.in_seq. lia.
Qed.

Lemma length_toString_ge_10 n :
  10 <= n -> (2 <= String.length (toString n))%nat.
Proof.
  intros Hn. unfold toString.
  pose proof (DecimalZ.of_to n) as Hof.
  destruct (Z.to_int n) as [d|d]; simpl.
  - destruct d as [|d|d|d|d|d|d|d|d|d|d];
      try (destruct d; simpl; try lia; vm_compute in Hof; lia).
    vm_compute in Hof; lia.
  - destruct d as [|d|d|d|d|d|d|d|d|d|d]; simpl; try lia.
    vm_compute in Hof; lia.
Qed.

Lemma padStart_toString_ge_10 n :
  10 <= n -> padStart 2 "0" (toString n) = toString n.
Proof. intros Hn. apply padStart_long. now apply length_toString_ge_10. Qed.

Lemma elapsed_stopTimer h : elapsed (stopTimer h) = "00:00".
Proof. reflexivity. Qed.

Lemma tick_elapsed now start h :
  sessionStartRef h = Some start ->
  elapsed (tick now h) = formatElapsed (now - start).
Proof. intros H. unfold tick. now rewrite H. Qed.

Lemma startTimer_idle persistedStart now nowTick h :
  intervalRef h = None ->
  let start := match persistedStart with Some p => p | None => now end in
  startTimer persistedStart now nowTick h
  = {| elapsed := formatElapsed (nowTick - start);
       sessionStartRef := Some start;
       intervalRef := Some (nextHandle h);
       scheduled := nextHandle h :: scheduled h;
       nextHandle := Pos.succ (nextHandle h);
       storageCalls := saveSessionStart start :: storageCalls h |}.
Proof. intros H start. unfold startTimer. now rewrite H. Qed.

End Timer.

(** C8.  On a running timer, that is when [intervalRef] holds the handle of a
    periodic task, [startTimer] changes nothing, with an anchor argument or
    without: the anchor, the scheduled periodic tasks and the calls made to
    the persistence collaborator are those of before. *)
Theorem startTimer_idempotent persistedStart now nowTick h id :
  intervalRef h = Some id ->
  let h' := startTimer persistedStart now nowTick h in
  h' = h
  /\ sessionStartRef h' = sessionStartRef h
  /\ scheduled h' = scheduled h
  /\ storageCalls h' = storageCalls h.
Proof.
  intros Hrun h'.
  assert (E : h' = h) by (subst h'; unfold startTimer; now rewrite Hrun).
  rewrite E. repeat split.
Qed.

(** A second start, with an anchor, after a first one without. *)
Lemma startTimer_idempotent_witness :
  let h := startTimer None 1000 1001 initial in
  let h' := startTimer (Some 5) 2000 2001 h in
  intervalRef h = Some 1%positive
  /\ h' = h
  /\ sessionStartRef h' = Some 1000
  /\ scheduled h' = [1%positive]
  /\ storageCalls h' = [saveSessionStart 1000].
Proof.
  intros h h'.
  assert (Hrun : intervalRef h = Some 1%positive) by reflexivity.
  destruct (startTimer_idempotent (Some 5) 2000 2001 h 1%positive Hrun)
    as (E & Ha & Hs & Hc).
  fold h' in E, Ha, Hs, Hc.
  split; [exact Hrun |]. split; [exact E |].
  rewrite Ha, Hs, Hc. repeat split.
Defined.

(** C9.  For an elapsed time of [ms >= 0] milliseconds the display is made of
    the minutes [ms / 1000 / 60] and of the seconds [(ms / 1000) mod 60] of
    the whole seconds [ms / 1000], joined by [":"]; the seconds are written
    with two digits and so are the minutes below 100, from 100 minutes on the
    padding adds nothing to their decimal writing.  This is what the hook
    displays: after a tick that reads the clock [ms] after the anchor, and
    after a start whose first tick does.  65,000 ms are displayed as
    ["01:05"], also by a tick 65,000 ms after the anchor, [stopTimer] sets
    the display to ["00:00"], and a tick on a hook without anchor leaves the
    display as it is. *)
Theorem formatElapsed_spec ms h :
  0 <= ms ->
  let totalSeconds := ms / 1000 in
  let minutes := totalSeconds / 60 in
  let seconds := totalSeconds mod 60 in
  let display :=
    ((if (minutes <? 100)%Z then two_digits minutes else JS.toString minutes)
     ++ ":" ++ two_digits seconds)%string in
  formatElapsed ms
  = (JS.padStart 2 "0" (JS.toString minutes) ++ ":"
     ++ JS.padStart 2 "0" (JS.toString seconds))%string
  /\ formatElapsed ms = display
  /\ formatElapsed 65000 = "01:05"
  /\ (forall start, sessionStartRef h = Some start ->
        elapsed (tick (start + 65000) h) = "01:05")
  /\ elapsed (stopTimer h) = "00:00"
  /\ (forall start now,
        sessionStartRef h = Some start -> now - start = ms ->
        elapsed (tick now h) = display)
  /\ (forall persistedStart now nowTick,
        intervalRef h = None ->
        nowTick - match persistedStart with Some p => p | None => now end
        = ms ->
        elapsed (startTimer persistedStart now nowTick h) = display)
  /\ (forall now, sessionStartRef h = None ->
        elapsed (tick now h) = elapsed h)
  /\ (forall now, elapsed (tick now (stopTimer h)) = "00:00").
Proof.
  intros Hms totalSeconds minutes seconds display.
  assert (Hts : 0 <= totalSeconds) by (apply Z.div_pos; lia).
  assert (Hmin : 0 <= minutes) by (apply Z.div_pos; lia).
  assert (Hsec : 0 <= seconds < 60) by (apply Z.mod_pos_bound; lia).
  assert (Hrem : Z.rem totalSeconds 60 = seconds)
    by (apply Z.rem_mod_nonneg; lia).
  assert (E : formatElapsed ms
              = (JS.padStart 2 "0" (JS.toString minutes) ++ ":"
                 ++ JS.padStart 2 "0" (JS.toString seconds))%string).
  { unfold formatElapsed. fold totalSeconds. fold minutes. now rewrite Hrem. }
  assert (D : formatElapsed ms = display).
  { rewrite E. subst display. rewrite (padStart_two_digits seconds) by lia.
    destruct (Z.ltb_spec minutes 100) as [Hlt|Hge].
    - now rewrite padStart_two_digits by lia.
    - now rewrite padStart_toString_ge_10 by lia. }
  split; [exact E |]. split; [exact D |]. split; [reflexivity |].
  split.
  { intros start Hstart. rewrite (tick_elapsed _ start) by exact Hstart.
    replace (start + 65000 - start) with 65000 by lia. reflexivity. }
  split; [reflexivity |]. split.
  { intros start now Hstart Hd.
    now rewrite (tick_elapsed _ start), Hd by exact Hstart. }
  split.
  { intros persistedStart now nowTick Hidle Hd.
    rewrite (startTimer_idle persistedStart now nowTick h Hidle).
    cbn [elapsed]. now rewrite Hd. }
  split.
  { intros now Hnone. unfold tick. now rewrite Hnone. }
  intros now. reflexivity.
Qed.

Lemma formatElapsed_spec_witness :
  formatElapsed 3725999 = "62:05"
  /\ formatElapsed 6000000 = "100:00"
  /\ elapsed (tick 66000 (startTimer None 1000 1000 initial)) = "01:05"
  /\ elapsed (tick 3726999 (startTimer None 1000 1000 initial)) = "62:05"
  /\ elapsed (startTimer (Some 1000) 31000 31000 initial) = "00:30"
  /\ elapsed (stopTimer (startTimer None 1000 1000 initial)) = "00:00".
Proof.
  destruct (formatElapsed_spec 3725999 (startTimer None 1000 1000 initial)
              ltac:(lia)) as (_ & E1 & _ & Ht & Hs & Htick & _).
  destruct (formatElapsed_spec 6000000 initial ltac:(lia)) as (_ & E2 & _).
  destruct (formatElapsed_spec 30000 initial ltac:(lia))
    as (_ & _ & _ & _ & _ & _ & Hstart & _).
  split; [rewrite E1; reflexivity |].
  split; [rewrite E2; reflexivity |].
  split; [exact (Ht 1000 eq_refl) |].
  split; [rewrite (Htick 1000 3726999 eq_refl eq_refl); reflexivity |].
  split; [rewrite (Hstart (Some 1000) 31000 31000 eq_refl eq_refl);
          reflexivity |].
  exact Hs.
Defined.

(** * Further properties of the sources *)

(** ** The OTP manager *)

Lemma validateOtp_success_inv email candidate now store :
  fst (validateOtp email candidate now store) = Success ->
  exists record,
    store !! email = Some record
    /\ now - createdAt record <= OTP_EXPIRY_MS
    /\ attempts record < MAX_ATTEMPTS
    /\ JS.trim candidate = code record.
Proof.
  unfold validateOtp.
  destruct (store !! email) as [record|]; [| discriminate].
  destruct (Z.ltb_spec OTP_EXPIRY_MS (now - createdAt record));
    [discriminate |].
  destruct (Z.leb_spec MAX_ATTEMPTS (attempts record)); [discriminate |].
  destruct (String.eqb_spec (code record) (JS.trim candidate)) as [Heq|Hne];
    simpl.
  - intros _. exists record. auto.
  - destruct (MAX_ATTEMPTS <=? attempts record + 1); discriminate.
Qed.

Lemma run_lookup_other op store email' :
  op_email op <> email' ->
  run op store !! email' = store !! email'.
Proof.
  intros Hne.
  destruct op as [email t raw|email c t|email t|email|email]; simpl in *.
  - now apply lookup_insert_ne.
  - unfold validateOtp. destruct (store !! email) as [record|]; [| easy].
    repeat match goal with
           | |- context [if ?b then _ else _] => destruct b
           end; simpl;
      first [reflexivity | now apply lookup_delete_ne
            | now apply lookup_insert_ne].
  - unfold getRemainingSeconds. now destruct (store !! email).
  - unfold getRemainingAttempts. now destruct (store !! email).
  - now apply lookup_delete_ne.
Qed.

Lemma getRemainingSeconds_nonneg email now store :
  0 <= fst (getRemainingSeconds email now store).
Proof.
  unfold getRemainingSeconds.
  destruct (store !! email) as [record|]; simpl; [| lia].
  set (remaining := OTP_EXPIRY_MS - (now - createdAt record)).
  pose proof (ceil_div_spec remaining 1000 ltac:(lia)).
  destruct (Z.ltb_spec 0 remaining); lia.
Qed.

(** X1.  [validateOtp] accepts a candidate exactly when the store holds a
    record for the identity that is not expired, counts fewer than 3 failed
    attempts and whose code is the trimmed candidate. *)
Theorem validateOtp_success_iff email candidate now store :
  fst (validateOtp email candidate now store) = Success
  <-> exists record,
        store !! email = Some record
        /\ now - createdAt record <= OTP_EXPIRY_MS
        /\ attempts record < MAX_ATTEMPTS
        /\ JS.trim candidate = code record.
Proof.
  split; [apply validateOtp_success_inv |].
  - intros (record & Hrecord & He & Ha & Hc).
    now rewrite (validateOtp_match email store record Hrecord).
Qed.

(** X2.  The records are kept apart by identity: an operation about one
    identity leaves the record of every other identity, and so the answers
    of the manager about it, as they were. *)
Theorem operations_isolated op store email' candidate now :
  op_email op <> email' ->
  run op store !! email' = store !! email'
  /\ fst (validateOtp email' candidate now (run op store))
     = fst (validateOtp email' candidate now store)
  /\ fst (getRemainingSeconds email' now (run op store))
     = fst (getRemainingSeconds email' now store)
  /\ fst (getRemainingAttempts email' (run op store))
     = fst (getRemainingAttempts email' store).
Proof.
  intros Hne.
  assert (Hlook : run op store !! email' = store !! email')
    by now apply run_lookup_other.
  split; [exact Hlook |].
  unfold validateOtp, getRemainingSeconds, getRemainingAttempts.
  rewrite Hlook. destruct (store !! email') as [record|]; simpl; [| easy].
  repeat match goal with
         | |- context [if ?b then _ else _] => destruct b
         end; simpl; easy.
Qed.

Lemma operations_isolated_witness :
  let store :=
    run_all [Generate "a@x.com" 1000 42; Generate "b@x.com" 1000 43] ∅ in
  let store' := run (Validate "a@x.com" "000042" 2000) store in
  store' !! "a@x.com" = None
  /\ store' !! "b@x.com" = store !! "b@x.com"
  /\ fst (validateOtp "b@x.com" "000043" 3000 store') = Success.
Proof.
  intros store store'.
  destruct (operations_isolated (Validate "a@x.com" "000042" 2000) store
              "b@x.com" "000043" 3000) as (Hl & Hv & _);
    [simpl; discriminate |].
  split; [vm_compute; reflexivity |]. split; [exact Hl |].
  fold store' in Hv. rewrite Hv. vm_compute. reflexivity.
Defined.

(** X3.  After [clearOtp] the identity has no record: validation answers
    [no_otp], the countdown and the remaining attempts are [0].  Clearing
    again, or clearing an identity without record, changes nothing. *)
Theorem clearOtp_forgets email candidate now store :
  let store' := snd (clearOtp email store) in
  validateOtp email candidate now store' = (Failure no_otp, store')
  /\ fst (getRemainingSeconds email now store') = 0
  /\ fst (getRemainingAttempts email store') = 0
  /\ snd (clearOtp email store') = store'
  /\ (store !! email = None -> store' = store).
Proof.
  intros store'. subst store'. unfold clearOtp. simpl.
  assert (Hnone : delete email store !! email = None)
    by apply lookup_delete_eq.
  split; [now apply validateOtp_no_otp |].
  unfold getRemainingSeconds, getRemainingAttempts. rewrite Hnone. simpl.
  split; [reflexivity |]. split; [reflexivity |].
  split; [now apply delete_id | apply delete_id].
Qed.

(** *** The decimal writing of numbers *)

Section Decimal.

Import JS.

Lemma is_digit_value c : is_digit c = true -> 0 <= digit_value c <= 9.
Proof.
  unfold is_digit, digit_value.
  intros [H1 H2]%andb_true_iff.
  apply Nat.leb_le in H1. apply Nat.leb_le in H2. lia.
Qed.

Lemma all_digits_app s t :
  all_digits (s ++ t) = all_digits s && all_digits t.
Proof.
  induction s as [|c s IH]; simpl; [reflexivity |].
  now rewrite IH, andb_assoc.
Qed.

Lemma all_digits_replicate n : all_digits (replicate_char n "0") = true.
Proof. induction n as [|n IH]; simpl; [reflexivity | exact IH]. Qed.

Lemma all_digits_uint d : all_digits (NilEmpty.string_of_uint d) = true.
Proof. induction d; simpl; auto. Qed.

Lemma all_digits_no_white_space s :
  all_digits s = true -> no_white_space s = true.
Proof.
  induction s as [|c s IH]; simpl; [reflexivity |].
  intros [Hc Hs]%andb_true_iff. rewrite (IH Hs), andb_true_r.
  revert Hc. destruct c as [[] [] [] [] [] [] [] []]; vm_compute; congruence.
Qed.

Lemma digits_prefix_all s : all_digits s = true -> digits_prefix s = s.
Proof.
  induction s as [|c s IH]; simpl; [reflexivity |].
  intros [Hc Hs]%andb_true_iff. now rewrite Hc, (IH Hs).
Qed.

Lemma digits_value_app acc s t :
  digits_value acc (s ++ t) = digits_value (digits_value acc s) t.
Proof. revert acc. induction s as [|c s IH]; simpl; intros acc; auto. Qed.

Lemma digits_value_zeros n : digits_value 0 (replicate_char n "0") = 0.
Proof. induction n as [|n IH]; simpl; [reflexivity | exact IH]. Qed.

(** A number is at least its leading digits shifted by the digits left. *)
Lemma digits_value_lower s acc :
  all_digits s = true -> 0 <= acc ->
  acc * 10 ^ Z.of_nat (String.length s) <= digits_value acc s.
Proof.
  revert acc. induction s as [|c s IH]; intros acc Hs Hacc.
  - simpl. lia.
  - simpl in Hs. apply andb_true_iff in Hs as [Hc Hs].
    apply is_digit_value in Hc.
    cbn [digits_value String.length].
    rewrite Nat2Z.inj_succ, Z.pow_succ_r by lia.
    specialize (IH (10 * acc + digit_value c) Hs ltac:(lia)).
    assert (0 <= 10 ^ Z.of_nat (String.length s)) by (apply Z.pow_nonneg; lia).
    nia.
Qed.

Lemma digits_value_acc_uint d acc :
  digits_value (Z.pos acc) (NilEmpty.string_of_uint d)
  = Z.pos (Pos.of_uint_acc d acc).
Proof.
  revert acc.
  induction d; intros acc;
    cbn [digits_value NilEmpty.string_of_uint Pos.of_uint_acc];
    [reflexivity | ..];
    rewrite <- IHd; f_equal;
    match goal with |- context [digit_value ?c] =>
      let v := eval vm_compute in (digit_value c) in
      change (digit_value c) with v
    end; lia.
Qed.

Lemma digits_value_uint d :
  digits_value 0 (NilEmpty.string_of_uint d) = Z.of_N (Pos.of_uint d).
Proof.
  induction d; simpl; [reflexivity | exact IHd | ..];
    apply (digits_value_acc_uint d).
Qed.

(** The digits written for a positive number do not start with a zero. *)
Lemma to_uint_head p :
  match Pos.to_uint p with
  | Decimal.Nil | Decimal.D0 _ => False
  | _ => True
  end.
Proof.
  pose proof (DecimalPos.Unsigned.to_of (Pos.to_uint p)) as H.
  rewrite DecimalPos.Unsigned.of_to in H. simpl in H.
  unfold Decimal.unorm in H.
  destruct (Decimal.nzhead (Pos.to_uint p)) eqn:E; rewrite H; try exact I.
  - now apply (DecimalPos.Unsigned.to_uint_nonzero p).
  - now apply (DecimalFacts.nzhead_nonzero (Pos.to_uint p) u).
Qed.

(** A natural number is written with digits only, and reading them gives the
    number back. *)
Lemma toString_N raw :
  all_digits (toString (Z.of_N raw)) = true
  /\ toString (Z.of_N raw) <> ""
  /\ digits_value 0 (toString (Z.of_N raw)) = Z.of_N raw.
Proof.
  destruct raw as [|p]; [now vm_compute |].
  unfold toString. simpl.
  split; [apply all_digits_uint |]. split.
  - pose proof (to_uint_head p). now destruct (Pos.to_uint p).
  - rewrite digits_value_uint, DecimalPos.Unsigned.of_to. reflexivity.
Qed.

Lemma toString_pos_head p :
  exists c r, toString (Z.pos p) = String c r /\ 1 <= digit_value c.
Proof.
  unfold toString. cbn [Z.to_int NilEmpty.string_of_int].
  pose proof (to_uint_head p) as Hh.
  destruct (Pos.to_uint p); try easy;
    cbn [NilEmpty.string_of_uint]; eexists; eexists;
    (split; [reflexivity | vm_compute; discriminate]).
Qed.

(** A number below [10 ^ k] is written with at most [k] digits. *)
Lemma length_toString_N raw k :
  Z.of_N raw < 10 ^ Z.of_nat k ->
  (String.length (toString (Z.of_N raw)) <= Nat.max 1 k)%nat.
Proof.
  intros Hlt. destruct raw as [|p]; [simpl; lia |].
  destruct (toString_N (N.pos p)) as (Hd & _ & Hv).
  destruct (toString_pos_head p) as (c & r & Hs & Hc).
  change (Z.of_N (N.pos p)) with (Z.pos p) in *.
  rewrite Hs in *. cbn [all_digits String.length digits_value] in *.
  apply andb_true_iff in Hd as [_ Hd].
  pose proof (digits_value_lower r (10 * 0 + digit_value c) Hd ltac:(lia))
    as Hlow.
  rewrite Hv in Hlow.
  assert (Hpow : 0 < 10 ^ Z.of_nat (String.length r))
    by (apply Z.pow_pos_nonneg; lia).
  destruct (Nat.le_gt_cases (S (String.length r)) (Nat.max 1 k))
    as [Hle|Hgt]; [exact Hle | exfalso].
  assert (10 ^ Z.of_nat k <= 10 ^ Z.of_nat (String.length r))
    by (apply Z.pow_le_mono_r; lia).
  nia.
Qed.

(** [parseInt] on a non-empty string of digits. *)
Lemma parseInt_digits s :
  all_digits s = true -> s <> "" -> parseInt s = Num (digits_value 0 s).
Proof.
  intros Hd Hne. unfold parseInt.
  rewrite (trimStart_no_white_space s) by now apply all_digits_no_white_space.
  destruct s as [|c r]; [now elim Hne |].
  assert (Hc : is_digit c = true) by (simpl in Hd; now destruct (is_digit c)).
  assert (Hsign : match String c r with
                  | String "-" r' => (-1, r')
                  | String "+" r' => (1, r')
                  | _ => (1, String c r)
                  end = (1, String c r)).
  { revert Hc.
    destruct c as [[] [] [] [] [] [] [] []]; vm_compute; congruence. }
  rewrite Hsign, (digits_prefix_all _ Hd).
  f_equal. lia.
Qed.

End Decimal.

(** X4.  The code [createRandomCode] makes is written with decimal digits
    only and has 6 characters or more; it has exactly 6 when the number
    drawn is below [10 ^ 6], which is the case of every draw of the
    source. *)
Theorem createRandomCode_format raw :
  all_digits (createRandomCode raw) = true
  /\ (OTP_LENGTH <= String.length (createRandomCode raw))%nat
  /\ ((raw < 10 ^ 6)%N ->
      String.length (createRandomCode raw) = OTP_LENGTH).
Proof.
  destruct (toString_N raw) as (Hd & _ & _).
  split; [| split].
  - unfold createRandomCode, JS.padStart.
    now rewrite all_digits_app, all_digits_replicate, Hd.
  - apply length_createRandomCode.
  - intros Hlt. unfold createRandomCode. rewrite length_padStart.
    pose proof (length_toString_N raw 6) as Hlen.
    unfold OTP_LENGTH in *. simpl in Hlen. lia.
Qed.

Lemma createRandomCode_format_witness :
  createRandomCode 42 = "000042"
  /\ String.length (createRandomCode 999999) = 6%nat
  /\ createRandomCode 0 = "000000".
Proof.
  split; [reflexivity |]. split; [| reflexivity].
  apply (createRandomCode_format 999999). reflexivity.
Defined.

(** X5.  The code is the decimal writing of the number drawn: [parseInt]
    reads the number back from it, so that two draws give the same code
    only when they are the same number. *)
Theorem createRandomCode_inj raw raw' :
  JS.parseInt (createRandomCode raw) = JS.Num (Z.of_N raw)
  /\ (createRandomCode raw = createRandomCode raw' -> raw = raw').
Proof.
  assert (Hread : forall r,
             JS.parseInt (createRandomCode r) = JS.Num (Z.of_N r)).
  { intros r. destruct (toString_N r) as (Hd & Hne & Hv).
    unfold createRandomCode, JS.padStart.
    rewrite parseInt_digits.
    - now rewrite digits_value_app, digits_value_zeros, Hv.
    - now rewrite all_digits_app, all_digits_replicate, Hd.
    - destruct (JS.replicate_char _ _); [exact Hne | discriminate]. }
  split; [apply Hread |].
  intros Heq. pose proof (Hread raw) as H1. rewrite Heq, Hread in H1.
  injection H1 as H1. lia.
Qed.

Lemma createRandomCode_inj_witness :
  JS.parseInt (createRandomCode 42) = JS.Num 42
  /\ createRandomCode 42 <> createRandomCode 420.
Proof.
  split; [apply (createRandomCode_inj 42 42) |].
  intros Heq. apply (createRandomCode_inj 42 420) in Heq. discriminate.
Defined.

(** *** Malformed candidates *)

(** A code drawn below [10 ^ 6] is made of exactly 6 digits. *)
Lemma createRandomCode_six_digits raw :
  (raw < 10 ^ 6)%N ->
  String.length (createRandomCode raw) = OTP_LENGTH
  /\ all_digits (createRandomCode raw) = true.
Proof.
  intros Hlt. destruct (toString_N raw) as (Hd & _ & _). split.
  - unfold createRandomCode. rewrite length_padStart.
    pose proof (length_toString_N raw 6) as Hlen.
    unfold OTP_LENGTH in *. simpl in Hlen. lia.
  - unfold createRandomCode, JS.padStart.
    now rewrite all_digits_app, all_digits_replicate, Hd.
Qed.

Lemma generated_code_digits record :
  generated_code record ->
  (OTP_LENGTH <= String.length (code record))%nat
  /\ all_digits (code record) = true.
Proof.
  intros [raw ->]. destruct (toString_N raw) as (Hd & _ & _). split.
  - apply length_createRandomCode.
  - unfold createRandomCode, JS.padStart.
    now rewrite all_digits_app, all_digits_replicate, Hd.
Qed.

(** C7.  [validateOtp] is a total function into the five outcomes, and on a
    record that is neither expired nor locked every candidate that does not
    trim to the stored code is a plain mismatch: the failure is counted on
    the record and the outcome is [incorrect], or [max_attempts] when the
    counter reaches 3.  On a generated record this is the case of the empty
    string, of every candidate that trims to fewer than 6 characters and of
    every candidate that holds a character that is no digit; when the code
    was drawn below [10 ^ 6], as every code of the source is, it is the case
    of every candidate that does not trim to 6 characters. *)
Theorem malformed_candidate_is_mismatch email candidate now store record :
  In (fst (validateOtp email candidate now store))
     [Success; Failure no_otp; Failure expired; Failure max_attempts;
      Failure incorrect]
  /\ (store !! email = Some record ->
      now - createdAt record <= OTP_EXPIRY_MS ->
      attempts record < MAX_ATTEMPTS ->
      let counted c :=
        validateOtp email c now store
        = (Failure (if MAX_ATTEMPTS <=? attempts record + 1
                    then max_attempts else incorrect),
           <[email := failed_attempt record]> store) in
      attempts (failed_attempt record) = attempts record + 1
      /\ (JS.trim candidate <> code record -> counted candidate)
      /\ (generated_code record ->
          counted ""
          /\ ((String.length (JS.trim candidate) < OTP_LENGTH)%nat ->
              counted candidate)
          /\ (all_digits (JS.trim candidate) = false -> counted candidate))
      /\ (forall raw,
            (raw < 10 ^ 6)%N -> code record = createRandomCode raw ->
            String.length (JS.trim candidate) <> OTP_LENGTH ->
            counted candidate)).
Proof.
  split.
  - destruct (validateOtp email candidate now store) as [[|[]] st]; simpl; auto 6.
  - intros Hrecord He Ha counted.
    assert (Hcount : forall c, JS.trim c <> code record -> counted c)
      by (intros c Hc; now apply validateOtp_mismatch).
    split; [reflexivity |]. split; [apply Hcount |]. split.
    + intros Hgen. destruct (generated_code_digits record Hgen) as [Hlen Hdig].
      split; [| split].
      * apply Hcount. intros Heq. rewrite <- Heq in Hlen.
        simpl in Hlen. unfold OTP_LENGTH in Hlen. lia.
      * intros Hshort. apply Hcount. intros Heq. rewrite Heq in Hshort. lia.
      * intros Hnd. apply Hcount. intros Heq. rewrite Heq in Hnd. congruence.
    + intros raw Hraw Hcode Hlen. apply Hcount. intros Heq.
      destruct (createRandomCode_six_digits raw Hraw) as [Hsix _].
      rewrite <- Hcode, <- Heq in Hsix. contradiction.
Qed.

(** The empty string, letters, digits with a space inside and a candidate of
    seven digits on a fresh record; the empty string on a record with two
    failures. *)
Lemma malformed_candidate_is_mismatch_witness :
  let record0 := {| code := createRandomCode 42; createdAt := 1000;
                    attempts := 0 |} in
  let record2 := {| code := createRandomCode 42; createdAt := 1000;
                    attempts := 2 |} in
  let store := snd (generateOtp "a@x.com" 1000 42 ∅) in
  let store2 : Store := <["a@x.com" := record2]> ∅ in
  let counted0 c :=
    validateOtp "a@x.com" c 2000 store
    = (Failure incorrect, <["a@x.com" := failed_attempt record0]> store) in
  counted0 "" /\ counted0 "abcdef" /\ counted0 "12 456"
  /\ counted0 "0000421"
  /\ fst (validateOtp "a@x.com" "" 2000 store2) = Failure max_attempts.
Proof.
  intros record0 record2 store store2 counted0.
  assert (Hgen0 : generated_code record0) by (exists 42%N; reflexivity).
  assert (Hgen2 : generated_code record2) by (exists 42%N; reflexivity).
  assert (H0 : forall c,
             let counted c' :=
               validateOtp "a@x.com" c' 2000 store
               = (Failure incorrect,
                  <["a@x.com" := failed_attempt record0]> store) in
             (JS.trim c <> code record0 -> counted c)
             /\ (generated_code record0 ->
                 counted ""
                 /\ ((String.length (JS.trim c) < OTP_LENGTH)%nat -> counted c)
                 /\ (all_digits (JS.trim c) = false -> counted c))
             /\ (forall raw,
                   (raw < 10 ^ 6)%N -> code record0 = createRandomCode raw ->
                   String.length (JS.trim c) <> OTP_LENGTH -> counted c)).
  { intros c.
    destruct (malformed_candidate_is_mismatch "a@x.com" c 2000 store record0)
      as [_ H].
    apply H; [apply generateOtp_lookup | by_constants | by_constants]. }
  split; [| split; [| split; [| split]]].
  - destruct (H0 "") as (_ & H & _). now destruct (H Hgen0).
  - destruct (H0 "abcdef") as (_ & H & _). destruct (H Hgen0) as (_ & _ & Hd).
    apply Hd. reflexivity.
  - destruct (H0 "12 456") as (Hne & _). apply Hne. vm_compute. discriminate.
  - destruct (H0 "0000421") as (_ & _ & Hl).
    apply (Hl 42%N); [reflexivity | reflexivity | vm_compute; discriminate].
  - destruct (malformed_candidate_is_mismatch "a@x.com" "" 2000 store2 record2)
      as [_ H].
    destruct H as (_ & _ & H & _);
      [apply lookup_insert_eq | by_constants | by_constants |].
    destruct (H Hgen2) as (H' & _). rewrite H'. reflexivity.
Defined.

(** *** The lock and the regeneration *)

Lemma blocked_no_success email candidate now store :
  blocked email store ->
  fst (validateOtp email candidate now store) <> Success.
Proof.
  intros Hb Hs. apply validateOtp_success_inv in Hs
    as (record & Hrecord & _ & Ha & _).
  unfold blocked in Hb. rewrite Hrecord in Hb. lia.
Qed.

Lemma blocked_run email op store :
  generates email op = false ->
  blocked email store ->
  blocked email (run op store).
Proof.
  intros Hg Hb.
  destruct (String.eqb_spec (op_email op) email) as [He|Hne].
  - destruct op as [e t raw|e c t|e t|e|e]; simpl in He, Hg |- *; subst e.
    + now rewrite String.eqb_refl in Hg.
    + unfold blocked in *. unfold validateOtp.
      destruct (store !! email) as [record|] eqn:Hrecord;
        [| simpl; now rewrite Hrecord].
      destruct (OTP_EXPIRY_MS <? t - createdAt record);
        [simpl; now rewrite lookup_delete_eq |].
      destruct (Z.leb_spec MAX_ATTEMPTS (attempts record)) as [_|Ha];
        [simpl; now rewrite Hrecord | lia].
    + unfold getRemainingSeconds. now destruct (store !! email).
    + unfold getRemainingAttempts. now destruct (store !! email).
    + unfold blocked. now rewrite lookup_delete_eq.
  - unfold blocked.
    now rewrite (run_lookup_other op store email Hne).
Qed.

(** X6.  A lock lasts until a new code is generated.  When the store holds
    no record for an identity, or a record with 3 failed attempts, then
    after any operations, about any identities, that do not generate a code
    for this identity, no candidate is accepted for it. *)
Theorem locked_until_generate email ops candidate now store :
  blocked email store ->
  forallb (fun op => negb (generates email op)) ops = true ->
  blocked email (run_all ops store)
  /\ fst (validateOtp email candidate now (run_all ops store)) <> Success.
Proof.
  intros Hb Hops.
  assert (H : blocked email (run_all ops store)).
  { unfold run_all. revert store Hb.
    induction ops as [|op ops IH]; simpl in *; intros store Hb; [exact Hb |].
    apply andb_true_iff in Hops as [Hop Hops].
    apply IH; [exact Hops |].
    apply blocked_run; [now apply negb_true_iff | exact Hb]. }
  split; [exact H | now apply blocked_no_success].
Qed.

(** Three wrong codes, then the stored code tried at once and again later,
    with queries and an operation about another identity in between. *)
Lemma locked_until_generate_witness :
  let store :=
    run_all [Generate "a@x.com" 1000 42; Validate "a@x.com" "1" 2000;
             Validate "a@x.com" "2" 3000; Validate "a@x.com" "3" 4000] ∅ in
  let ops := [Validate "a@x.com" "000042" 5000; RemainingAttempts "a@x.com";
              Generate "b@x.com" 6000 7; RemainingSeconds "a@x.com" 7000] in
  blocked "a@x.com" store
  /\ fst (validateOtp "a@x.com" "000042" 8000 (run_all ops store)) <> Success.
Proof.
  intros store ops.
  assert (Hb : blocked "a@x.com" store) by (vm_compute; discriminate).
  split; [exact Hb |].
  apply (locked_until_generate "a@x.com" ops "000042" 8000 store Hb).
  reflexivity.
Defined.

(** X7.  Generating a code gives the identity a fresh start whatever the
    store held for it, a locked record included: 3 attempts remain, the
    countdown shows 60 during the first second, and the code returned is
    accepted as long as 60,000 ms have not passed. *)
Theorem generateOtp_fresh_start email now raw now' store :
  let g := generateOtp email now raw store in
  fst (getRemainingAttempts email (snd g)) = 3
  /\ (0 <= now' - now < 1000 ->
      fst (getRemainingSeconds email now' (snd g)) = 60)
  /\ (now' - now <= OTP_EXPIRY_MS ->
      validateOtp email (fst g) now' (snd g)
      = (Success, delete email (snd g))).
Proof.
  intros g.
  pose proof (generateOtp_lookup email now raw store) as Hrecord.
  fold g in Hrecord.
  split; [| split].
  - unfold getRemainingAttempts. now rewrite Hrecord.
  - intros Hd. unfold getRemainingSeconds. rewrite Hrecord. simpl.
    unfold OTP_EXPIRY_MS.
    destruct (Z.ltb_spec 0 (60 * 1000 - (now' - now))); [| lia].
    apply ceil_div_unique; lia.
  - intros He.
    apply validateOtp_match with
      (record := {| code := createRandomCode raw; createdAt := now;
                    attempts := 0 |});
      [exact Hrecord | exact He | by_constants |].
    apply trim_createRandomCode.
Qed.

(** A locked identity generates again. *)
Lemma generateOtp_fresh_start_witness :
  let store :=
    run_all [Generate "a@x.com" 1000 42; Validate "a@x.com" "1" 2000;
             Validate "a@x.com" "2" 3000; Validate "a@x.com" "3" 4000] ∅ in
  let g := generateOtp "a@x.com" 5000 7 store in
  fst (validateOtp "a@x.com" "000042" 5500 store) = Failure max_attempts
  /\ fst (getRemainingAttempts "a@x.com" (snd g)) = 3
  /\ fst (getRemainingSeconds "a@x.com" 5999 (snd g)) = 60
  /\ fst (validateOtp "a@x.com" "000007" 65000 (snd g)) = Success.
Proof.
  intros store g.
  destruct (generateOtp_fresh_start "a@x.com" 5000 7 5999 store)
    as (Ha & Hs & _).
  destruct (generateOtp_fresh_start "a@x.com" 5000 7 65000 store)
    as (_ & _ & Hv).
  split; [vm_compute; reflexivity |]. split; [exact Ha |].
  split; [apply Hs; lia |].
  fold g in Hv. change (fst g) with "000007" in Hv.
  rewrite Hv; [reflexivity | by_constants].
Defined.

(** *** The remaining attempts *)

(** X8.  A failed comparison takes one attempt away, and the outcome is
    [max_attempts] exactly when none is left afterwards. *)
Theorem failed_attempt_counts email candidate now store record :
  store !! email = Some record ->
  now - createdAt record <= OTP_EXPIRY_MS ->
  attempts record < MAX_ATTEMPTS ->
  JS.trim candidate <> code record ->
  let r := validateOtp email candidate now store in
  fst (getRemainingAttempts email (snd r))
  = fst (getRemainingAttempts email store) - 1
  /\ (fst r = Failure max_attempts
      <-> fst (getRemainingAttempts email (snd r)) = 0)
  /\ (fst r = Failure incorrect
      <-> 0 < fst (getRemainingAttempts email (snd r))).
Proof.
  intros Hrecord He Ha Hc r. subst r.
  rewrite (validateOtp_mismatch email store record Hrecord) by assumption.
  unfold getRemainingAttempts. simpl.
  rewrite Hrecord, lookup_insert_eq. simpl.
  unfold MAX_ATTEMPTS in *.
  destruct (Z.leb_spec 3 (attempts record + 1)); simpl;
    (split; [lia |]); split; split; intros H'; try discriminate;
    try reflexivity; lia.
Qed.

Lemma failed_attempt_counts_witness :
  let store := snd (generateOtp "a@x.com" 1000 42 ∅) in
  let r := validateOtp "a@x.com" "000041" 2000 store in
  fst (getRemainingAttempts "a@x.com" store) = 3
  /\ fst (getRemainingAttempts "a@x.com" (snd r)) = 3 - 1
  /\ fst r = Failure incorrect.
Proof.
  intros store r.
  destruct (failed_attempt_counts "a@x.com" "000041" 2000 store
              {| code := createRandomCode 42; createdAt := 1000;
                 attempts := 0 |}) as (Hd & _ & Hi);
    [apply generateOtp_lookup | by_constants | by_constants
    | vm_compute; discriminate |].
  fold r in Hd, Hi.
  assert (H3 : fst (getRemainingAttempts "a@x.com" store) = 3)
    by (vm_compute; reflexivity).
  split; [exact H3 |]. rewrite H3 in Hd. split; [exact Hd |].
  apply Hi. rewrite Hd. lia.
Defined.

(** X9.  In every store the operations can build, the remaining attempts of
    an identity lie between 0 and 3; they are 3 minus the failed attempts of
    its record, and 0 without a record. *)
Theorem getRemainingAttempts_range ops email :
  let store := run_all ops ∅ in
  0 <= fst (getRemainingAttempts email store) <= MAX_ATTEMPTS
  /\ snd (getRemainingAttempts email store) = store
  /\ fst (getRemainingAttempts email store)
     = match store !! email with
       | Some record => MAX_ATTEMPTS - attempts record
       | None => 0
       end.
Proof.
  intros store.
  pose proof (reachable_attempts_in_range ops) as Hinv. fold store in Hinv.
  unfold getRemainingAttempts.
  destruct (store !! email) as [record|] eqn:Hrecord; simpl;
    [| unfold MAX_ATTEMPTS; repeat split; lia].
  pose proof (Hinv _ _ Hrecord) as Hr. unfold attempts_in_range in Hr.
  repeat split; lia.
Qed.

(** *** The countdown and the expiry *)

(** X10.  The countdown is positive exactly when the identity has a record
    younger than 60,000 ms.  While it is positive, [validateOtp] answers
    neither [expired] nor [no_otp]; and when [validateOtp] answers
    [expired], the countdown is at [0]. *)
Theorem countdown_agrees_with_expiry email candidate now store :
  let secs := fst (getRemainingSeconds email now store) in
  let outcome := fst (validateOtp email candidate now store) in
  (0 < secs
   <-> exists record,
         store !! email = Some record
         /\ now - createdAt record < OTP_EXPIRY_MS)
  /\ (0 < secs -> outcome <> Failure expired /\ outcome <> Failure no_otp)
  /\ (outcome = Failure expired -> secs = 0).
Proof.
  intros secs outcome. subst secs outcome.
  unfold getRemainingSeconds, validateOtp.
  destruct (store !! email) as [record|]; simpl.
  - set (remaining := OTP_EXPIRY_MS - (now - createdAt record)).
    pose proof (ceil_div_spec remaining 1000 ltac:(lia)) as Hc.
    destruct (Z.ltb_spec 0 remaining) as [Hr|Hr];
      destruct (Z.ltb_spec OTP_EXPIRY_MS (now - createdAt record)) as [He|He];
      try (subst remaining; lia).
    + split; [| split].
      * split; [intros _; exists record; split; [reflexivity | subst remaining; lia] | lia].
      * intros _.
        repeat match goal with
               | |- context [if ?b then _ else _] => destruct b
               end; simpl; split; discriminate.
      * repeat match goal with
               | |- context [if ?b then _ else _] => destruct b
               end; simpl; discriminate.
    + split; [| split]; try lia.
      split; [lia |]. intros (r & [= <-] & Hlt). subst remaining. lia.
    + split; [| split]; try lia.
      split; [lia |]. intros (r & [= <-] & Hlt). subst remaining. lia.
  - split; [| split]; try lia; try discriminate.
    split; [lia |]. intros (r & Hr & _). discriminate.
Qed.

(** X11.  For a record created in the past the countdown starts at 60 or
    below, does not grow as time advances and reaches [0] once 60,000 ms
    have passed. *)
Theorem countdown_bounds email now now' store record :
  store !! email = Some record ->
  createdAt record <= now ->
  now <= now' ->
  0 <= fst (getRemainingSeconds email now' store)
    <= fst (getRemainingSeconds email now store)
  /\ fst (getRemainingSeconds email now store) <= 60
  /\ (OTP_EXPIRY_MS <= now' - createdAt record ->
      fst (getRemainingSeconds email now' store) = 0).
Proof.
  intros Hrecord Hpast Hle.
  pose proof (getRemainingSeconds_mono email now now' store Hle) as Hmono.
  pose proof (getRemainingSeconds_nonneg email now' store) as Hpos.
  split; [lia |].
  unfold getRemainingSeconds. rewrite Hrecord. simpl.
  split.
  - set (remaining := OTP_EXPIRY_MS - (now - createdAt record)).
    pose proof (ceil_div_spec remaining 1000 ltac:(lia)) as Hc.
    destruct (Z.ltb_spec 0 remaining); [| lia].
    assert (remaining <= 60000) by (subst remaining; by_constants).
    lia.
  - intros He.
    destruct (Z.ltb_spec 0 (OTP_EXPIRY_MS - (now' - createdAt record))); lia.
Qed.

Lemma countdown_bounds_witness :
  let store := snd (generateOtp "a@x.com" 1000 42 ∅) in
  fst (getRemainingSeconds "a@x.com" 1000 store) = 60
  /\ fst (getRemainingSeconds "a@x.com" 31001 store) = 30
  /\ 0 <= fst (getRemainingSeconds "a@x.com" 61000 store)
       <= fst (getRemainingSeconds "a@x.com" 31001 store)
  /\ fst (getRemainingSeconds "a@x.com" 61000 store) = 0.
Proof.
  intros store.
  destruct (countdown_bounds "a@x.com" 31001 61000 store
              {| code := createRandomCode 42; createdAt := 1000;
                 attempts := 0 |}) as (Hm & _ & Hz);
    [apply generateOtp_lookup | simpl; lia | lia |].
  split; [vm_compute; reflexivity |]. split; [vm_compute; reflexivity |].
  split; [exact Hm |]. apply Hz. by_constants.
Defined.

(** *** What validation leaves untouched *)

(** X12.  [validateOtp] creates no record and rewrites neither a code nor a
    creation time: a record found in the store after a validation was there
    before, with the same code and creation time, and with the same count of
    failed attempts or one more. *)
Theorem validateOtp_preserves email candidate now store email' record' :
  snd (validateOtp email candidate now store) !! email' = Some record' ->
  exists record,
    store !! email' = Some record
    /\ code record' = code record
    /\ createdAt record' = createdAt record
    /\ attempts record <= attempts record' <= attempts record + 1.
Proof.
  unfold validateOtp.
  destruct (store !! email) as [record|] eqn:Hrecord.
  - repeat match goal with
           | |- context [if ?b then _ else _] => destruct b
           end; simpl; intros H.
    + apply lookup_delete_Some in H as [_ H]. exists record'.
      repeat split; auto; lia.
    + exists record'. repeat split; auto; lia.
    + apply lookup_insert_Some in H as [[<- <-]|[_ H]].
      * exists record. simpl. repeat split; auto; lia.
      * exists record'. repeat split; auto; lia.
    + apply lookup_insert_Some in H as [[<- <-]|[_ H]].
      * exists record. simpl. repeat split; auto; lia.
      * exists record'. repeat split; auto; lia.
    + apply lookup_delete_Some in H as [_ H]. exists record'.
      repeat split; auto; lia.
  - simpl. intros H. exists record'. repeat split; auto; lia.
Qed.

Lemma validateOtp_preserves_witness :
  let store := snd (generateOtp "a@x.com" 1000 42 ∅) in
  exists record,
    store !! "a@x.com" = Some record
    /\ "000042" = code record
    /\ 1000 = createdAt record
    /\ attempts record <= 1 <= attempts record + 1.
Proof.
  intros store.
  apply (validateOtp_preserves "a@x.com" "000041" 2000 store "a@x.com"
           {| code := "000042"; createdAt := 1000; attempts := 1 |}).
  vm_compute. reflexivity.
Defined.

(** ** The session timer hook *)

Lemma timer_ok_initial : timer_ok initial.
Proof. split; [reflexivity | discriminate]. Qed.

Lemma clearInterval_own id h :
  scheduled h = [id] -> scheduled (clearInterval id h) = [].
Proof. intros H. simpl. rewrite H. simpl. now rewrite Pos.eqb_refl. Qed.

Lemma timer_ok_clear id h :
  timer_ok h -> intervalRef h = Some id ->
  timer_ok (setIntervalRef None (clearInterval id h)).
Proof.
  intros [Hs _] Hi. split; [| discriminate].
  simpl. rewrite Hs, Hi. simpl. now rewrite Pos.eqb_refl.
Qed.

Lemma timer_ok_setElapsed e h : timer_ok h -> timer_ok (setElapsed e h).
Proof. intros [Hs Hid]. split; [exact Hs | exact Hid]. Qed.

Lemma timer_ok_tick now h : timer_ok h -> timer_ok (tick now h).
Proof.
  intros Hok. unfold tick.
  destruct (sessionStartRef h); [now apply timer_ok_setElapsed | exact Hok].
Qed.

Lemma timer_ok_step e h : timer_ok h -> timer_ok (timer_step e h).
Proof.
  intros Hok.
  destruct e as [p now nowTick| |now|st now|]; simpl.
  - unfold startTimer. destruct (intervalRef h) as [id|] eqn:Hi;
      [exact Hok |].
    destruct Hok as [Hs _]. rewrite Hi in Hs.
    split; simpl; [now rewrite Hs |].
    intros id [= <-]. split; [lia | discriminate].
  - unfold stopTimer. destruct (intervalRef h) as [id|] eqn:Hi.
    + destruct (timer_ok_clear id h Hok Hi) as [Hs' _].
      split; [exact Hs' | discriminate].
    + destruct Hok as [Hs _]. rewrite Hi in Hs.
      split; [simpl; now rewrite Hs, Hi | simpl; congruence].
  - now apply timer_ok_tick.
  - unfold handleAppStateChange.
    destruct st, (sessionStartRef h); try exact Hok; now apply timer_ok_tick.
  - unfold SessionTimer.unmount.
    destruct (intervalRef h) as [id|] eqn:Hi;
      [now apply timer_ok_clear | exact Hok].
Qed.

Lemma timer_ok_run es h : timer_ok h -> timer_ok (timer_run es h).
Proof.
  unfold timer_run. revert h.
  induction es as [|e es IH]; simpl; intros h H; [exact H |].
  now apply IH, timer_ok_step.
Qed.

(** X13.  Whatever happens to the hook, starts and stops in any order and
    number included, at most one periodic task is scheduled: the one whose
    handle the hook holds, and none when it holds none.  A hook that holds a
    handle has an anchor. *)
Theorem timer_single_task es :
  let h := timer_run es initial in
  scheduled h = option_list (intervalRef h)
  /\ (length (scheduled h) <= 1)%nat
  /\ (intervalRef h <> None -> sessionStartRef h <> None).
Proof.
  intros h.
  destruct (timer_ok_run es initial timer_ok_initial) as [Hs Hid].
  fold h in Hs, Hid.
  split; [exact Hs |]. split.
  - rewrite Hs. destruct (intervalRef h); simpl; lia.
  - destruct (intervalRef h) as [id|]; [| congruence].
    intros _. now apply (Hid id).
Qed.

(** X14.  [stopTimer] halts the timer: no handle, no anchor and no periodic
    task are left, the display is ["00:00"] and the deletion of the
    persisted anchor is requested.  A tick that fires late and a return to
    the foreground change nothing afterwards, and stopping again only
    requests the deletion once more. *)
Theorem stopTimer_halts es now nextState :
  let h := timer_run es initial in
  let h' := stopTimer h in
  intervalRef h' = None
  /\ sessionStartRef h' = None
  /\ scheduled h' = []
  /\ elapsed h' = "00:00"
  /\ storageCalls h' = clearSession :: storageCalls h
  /\ tick now h' = h'
  /\ handleAppStateChange nextState now h' = h'
  /\ stopTimer h' = callStorage clearSession h'.
Proof.
  intros h h'.
  destruct (timer_ok_run es initial timer_ok_initial) as [Hs _].
  fold h in Hs. subst h'. unfold stopTimer.
  destruct (intervalRef h) as [id|] eqn:Hi; simpl in *.
  - rewrite Hs. simpl. rewrite Pos.eqb_refl.
    repeat split; destruct nextState; reflexivity.
  - repeat split; simpl; rewrite ?Hi, ?Hs; try reflexivity.
    unfold handleAppStateChange. now destruct nextState.
Qed.

Lemma timer_step_refreshes e h :
  refreshes e = true ->
  sessionStartRef (timer_step e h) = sessionStartRef h
  /\ intervalRef (timer_step e h) = intervalRef h
  /\ scheduled (timer_step e h) = scheduled h
  /\ storageCalls (timer_step e h) = storageCalls h.
Proof.
  destruct e as [| |now|st now|]; try discriminate; intros _; simpl.
  - unfold tick. destruct (sessionStartRef h) eqn:Ha; simpl; auto.
  - unfold handleAppStateChange, tick.
    destruct st, (sessionStartRef h) eqn:Ha; simpl; auto.
Qed.

Lemma timer_run_refreshes es h :
  forallb refreshes es = true ->
  sessionStartRef (timer_run es h) = sessionStartRef h
  /\ intervalRef (timer_run es h) = intervalRef h
  /\ scheduled (timer_run es h) = scheduled h
  /\ storageCalls (timer_run es h) = storageCalls h.
Proof.
  unfold timer_run. revert h.
  induction es as [|e es IH]; simpl; intros h Hes; [easy |].
  apply andb_true_iff in Hes as [He Hes].
  destruct (IH (timer_step e h) Hes) as (H1 & H2 & H3 & H4).
  destruct (timer_step_refreshes e h He) as (G1 & G2 & G3 & G4).
  rewrite H1, H2, H3, H4. auto.
Qed.

(** X15.  The display is recomputed from the anchor, not accumulated: after
    any ticks and changes of the application state, at any times, missed
    or repeated, the anchor, the periodic task and the persistence calls are
    as before, and the next tick displays the time between the anchor and
    the clock it reads; so does a return to the foreground. *)
Theorem tick_recomputes es now start h :
  sessionStartRef h = Some start ->
  forallb refreshes es = true ->
  let h' := timer_run es h in
  sessionStartRef h' = Some start
  /\ intervalRef h' = intervalRef h
  /\ scheduled h' = scheduled h
  /\ storageCalls h' = storageCalls h
  /\ elapsed (tick now h') = formatElapsed (now - start)
  /\ elapsed (handleAppStateChange active now h') = formatElapsed (now - start).
Proof.
  intros Hstart Hes h'.
  destruct (timer_run_refreshes es h Hes) as (H1 & H2 & H3 & H4).
  fold h' in H1, H2, H3, H4. rewrite Hstart in H1.
  repeat split; try assumption.
  - now apply tick_elapsed.
  - unfold handleAppStateChange. rewrite H1. now apply tick_elapsed.
Qed.

(** Ten minutes in the background: one tick at the start, the return to the
    foreground 725 s after the anchor. *)
Lemma tick_recomputes_witness :
  let h := startTimer None 1000 1000 initial in
  let h' := timer_run [EvTick 2000; EvAppState background 3000;
                       EvAppState active 603000; EvTick 603500] h in
  sessionStartRef h' = Some 1000
  /\ elapsed (tick 726000 h') = "12:05"
  /\ elapsed (tick 726000 h) = "12:05".
Proof.
  intros h h'.
  destruct (tick_recomputes [EvTick 2000; EvAppState background 3000;
                             EvAppState active 603000; EvTick 603500]
              726000 1000 h eq_refl eq_refl) as (Ha & _ & _ & _ & Ht & _).
  fold h' in Ha, Ht.
  split; [exact Ha |]. split; [rewrite Ht; reflexivity |].
  reflexivity.
Defined.

(** X16.  After a stop the timer can be started again: the new session has
    its own anchor, which is persisted after the deletion of the old one,
    and a periodic task of its own, with a handle that was never handed out
    before. *)
Theorem restart_after_stop es persistedStart now nowTick :
  let h := timer_run es initial in
  let h' := startTimer persistedStart now nowTick (stopTimer h) in
  let start := match persistedStart with Some p => p | None => now end in
  sessionStartRef h' = Some start
  /\ elapsed h' = formatElapsed (nowTick - start)
  /\ intervalRef h' = Some (nextHandle h)
  /\ scheduled h' = [nextHandle h]
  /\ intervalRef h <> Some (nextHandle h)
  /\ storageCalls h'
     = saveSessionStart start :: clearSession :: storageCalls h.
Proof.
  intros h h' start.
  destruct (timer_ok_run es initial timer_ok_initial) as [Hs Hid].
  fold h in Hs, Hid.
  assert (Hfresh : intervalRef h <> Some (nextHandle h)).
  { intros Hi. destruct (Hid _ Hi) as [Hlt _]. lia. }
  subst h'. unfold startTimer, stopTimer.
  destruct (intervalRef h) as [id|] eqn:Hi; simpl in *.
  - rewrite Hs. simpl. rewrite Pos.eqb_refl.
    repeat split; first [assumption | reflexivity].
  - rewrite Hs, Hi. repeat split; first [assumption | reflexivity].
Qed.

(** ** The persisted session start *)

(** [parseInt] reads back the integer [toString] wrote, negative numbers
    and zero included. *)
Lemma parseInt_toString n : JS.parseInt (JS.toString n) = JS.Num n.
Proof.
  destruct n as [|p|p].
  - reflexivity.
  - destruct (toString_N (N.pos p)) as (Hd & Hne & Hv).
    change (Z.of_N (N.pos p)) with (Z.pos p) in *.
    rewrite (parseInt_digits _ Hd Hne). now rewrite Hv.
  - destruct (toString_N (N.pos p)) as (Hd & Hne & Hv).
    change (Z.of_N (N.pos p)) with (Z.pos p) in *.
    change (JS.toString (Z.neg p)) with (String "-" (JS.toString (Z.pos p))).
    unfold JS.parseInt.
    change (JS.trimStart (String "-" (JS.toString (Z.pos p))))
      with (String "-" (JS.toString (Z.pos p))).
    cbv iota beta. rewrite (digits_prefix_all _ Hd).
    destruct (JS.toString (Z.pos p)) eqn:Hs; [now elim Hne |].
    rewrite Hv. reflexivity.
Qed.

Lemma truthy_toString n : JS.truthy_string (JS.toString n) = true.
Proof.
  destruct n as [|p|p]; [reflexivity | | reflexivity].
  destruct (toString_N (N.pos p)) as (_ & Hne & _).
  change (Z.of_N (N.pos p)) with (Z.pos p) in *.
  now destruct (JS.toString (Z.pos p)).
Qed.

(** X17.  The session start that was saved is the one that is read: after a
    save that resolved, [getSessionStart] returns the time stamp, for every
    integer time stamp a [number] holds exactly, that is of magnitude below
    [2^53]; after [clearSession], and when the read is rejected, it returns
    [null]. *)
Theorem session_start_round_trip timestamp st :
  - 2 ^ 53 < timestamp < 2 ^ 53 ->
  Analytics.getSessionStart true (Analytics.saveSessionStart timestamp true st)
  = Some (JS.Num timestamp)
  /\ Analytics.getSessionStart true (Analytics.clearSession true st) = None
  /\ Analytics.getSessionStart true
       (Analytics.clearSession true
          (Analytics.saveSessionStart timestamp true st)) = None
  /\ Analytics.getSessionStart false st = None.
Proof.
  intros _.
  unfold Analytics.getSessionStart, Analytics.saveSessionStart,
    Analytics.clearSession.
  rewrite lookup_insert_eq, !lookup_delete_eq, parseInt_toString,
    truthy_toString.
  repeat split.
Qed.

(** A reading of the clock, saved over an older one. *)
Lemma session_start_round_trip_witness :
  let st : Analytics.AsyncStorage := {[Analytics.SESSION_KEY := "1000"]} in
  Analytics.saveSessionStart 1793606400000 true st
  !! Analytics.SESSION_KEY = Some "1793606400000"
  /\ Analytics.getSessionStart true
       (Analytics.saveSessionStart 1793606400000 true st)
     = Some (JS.Num 1793606400000)
  /\ Analytics.getSessionStart true (Analytics.clearSession true st) = None.
Proof.
  intros st.
  destruct (session_start_round_trip 1793606400000 st ltac:(lia))
    as (Hget & Hclear & _).
  split; [vm_compute; reflexivity |]. split; [exact Hget | exact Hclear].
Defined.

Lemma flush_stopTimer h st :
  Analytics.flush (storageCalls (stopTimer h)) st !! Analytics.SESSION_KEY
  = None.
Proof.
  unfold Analytics.flush, stopTimer. simpl. apply lookup_delete_eq.
Qed.

(** X18.  A session survives the restart of the application.  When a
    session that started at [t], [t] not being [0], has had its anchor
    persisted, the screen of a new process that reads the storage resumes
    it: the anchor and the start time displayed are [t] again, and the
    first display is the time passed since [t], not ["00:00"]. *)
Theorem session_survives_restart t tTick now nowTick st :
  t <> 0 ->
  let s1 := SessionScreen.initSession None t tTick SessionScreen.initial in
  let storage :=
    Analytics.flush (storageCalls (SessionScreen.timer s1)) st in
  let s2 :=
    SessionScreen.initSession (Analytics.getSessionStart true storage)
      now nowTick SessionScreen.initial in
  Analytics.getSessionStart true storage = Some (JS.Num t)
  /\ SessionScreen.sessionStartTime s2 = Some t
  /\ sessionStartRef (SessionScreen.timer s2) = Some t
  /\ elapsed (SessionScreen.timer s2) = formatElapsed (nowTick - t)
  /\ intervalRef (SessionScreen.timer s2) <> None.
Proof.
  intros Ht s1 storage s2.
  assert (Hget : Analytics.getSessionStart true storage = Some (JS.Num t)).
  { subst storage s1. simpl. unfold Analytics.flush. simpl.
    unfold Analytics.getSessionStart, Analytics.saveSessionStart.
    now rewrite lookup_insert_eq, truthy_toString, parseInt_toString. }
  split; [exact Hget |].
  subst s2. rewrite Hget. unfold SessionScreen.initSession. simpl.
  destruct (Z.eqb_spec t 0) as [|_]; [contradiction |]. simpl.
  repeat split. discriminate.
Qed.

(** A session started at 1000 is resumed 30 s later. *)
Lemma session_survives_restart_witness :
  let s1 := SessionScreen.initSession None 1000 1000 SessionScreen.initial in
  let storage :=
    Analytics.flush (storageCalls (SessionScreen.timer s1)) ∅ in
  let s2 :=
    SessionScreen.initSession (Analytics.getSessionStart true storage)
      31000 31000 SessionScreen.initial in
  storage !! Analytics.SESSION_KEY = Some "1000"
  /\ sessionStartRef (SessionScreen.timer s2) = Some 1000
  /\ elapsed (SessionScreen.timer s2) = "00:30".
Proof.
  intros s1 storage s2.
  destruct (session_survives_restart 1000 1000 31000 31000 ∅ ltac:(lia))
    as (_ & _ & Ha & He & _).
  fold s1 storage s2 in Ha, He.
  split; [vm_compute; reflexivity |]. split; [exact Ha |].
  rewrite He. reflexivity.
Defined.

(** X19.  Without a usable persisted anchor the screen starts a fresh
    session at the current time: when nothing is stored, when the read is
    rejected, when the text stored is empty or is no number, and also when
    the anchor stored is [0], which the test [if (persisted)] takes for
    absent.  The anchor of the fresh session is persisted. *)
Theorem fresh_session_fallback ok st now nowTick :
  let persisted := Analytics.getSessionStart ok st in
  let s := SessionScreen.initSession persisted now nowTick
             SessionScreen.initial in
  (ok = false
   \/ st !! Analytics.SESSION_KEY = None
   \/ (exists raw, st !! Analytics.SESSION_KEY = Some raw
                   /\ (raw = "" \/ JS.parseInt raw = JS.NaN
                       \/ JS.parseInt raw = JS.Num 0))) ->
  SessionScreen.sessionStartTime s = Some now
  /\ sessionStartRef (SessionScreen.timer s) = Some now
  /\ elapsed (SessionScreen.timer s) = formatElapsed (nowTick - now)
  /\ storageCalls (SessionScreen.timer s) = [saveSessionStart now].
Proof.
  intros persisted s H.
  assert (Hfalsy : match persisted with
                   | Some x => JS.truthy_number x = false
                   | None => True
                   end).
  { subst persisted. unfold Analytics.getSessionStart.
    destruct H as [-> | [-> | (raw & -> & [-> | [Hp | Hp]])]];
      try destruct ok; try exact I;
      destruct (JS.truthy_string raw); try exact I; now rewrite Hp. }
  subst s. unfold SessionScreen.initSession.
  destruct persisted as [[|p]|]; try (repeat split; fail).
  rewrite Hfalsy. repeat split.
Qed.

Lemma fresh_session_fallback_witness :
  let s0 := SessionScreen.initSession
              (Analytics.getSessionStart true {[Analytics.SESSION_KEY := "0"]})
              5000 5000 SessionScreen.initial in
  let sx := SessionScreen.initSession
              (Analytics.getSessionStart true {[Analytics.SESSION_KEY := "soon"]})
              5000 5000 SessionScreen.initial in
  sessionStartRef (SessionScreen.timer s0) = Some 5000
  /\ sessionStartRef (SessionScreen.timer sx) = Some 5000
  /\ elapsed (SessionScreen.timer sx) = "00:00".
Proof.
  intros s0 sx.
  destruct (fresh_session_fallback true {[Analytics.SESSION_KEY := "0"]}
              5000 5000) as (_ & H0 & _).
  { right. right. exists "0". split; [apply lookup_singleton_eq |].
    right. right. reflexivity. }
  destruct (fresh_session_fallback true {[Analytics.SESSION_KEY := "soon"]}
              5000 5000) as (_ & Hx & Hex & _).
  { right. right. exists "soon". split; [apply lookup_singleton_eq |].
    right. left. reflexivity. }
  split; [exact H0 |]. split; [exact Hx |].
  fold sx in Hex. rewrite Hex. reflexivity.
Defined.

(** X20.  A logout ends the session for the next start too: whatever
    happened to the timer before, once the calls the hook made to the
    persistence collaborator have been performed nothing is stored under the
    session key, and the screen of a new process starts a fresh session at
    the current time. *)
Theorem logout_forgets_session es st ok now nowTick :
  let s := SessionScreen.logout
             {| SessionScreen.sessionStartTime := None;
                SessionScreen.timer := timer_run es initial |} in
  let storage := Analytics.flush (storageCalls (SessionScreen.timer s)) st in
  let s' := SessionScreen.initSession (Analytics.getSessionStart ok storage)
              now nowTick SessionScreen.initial in
  storage !! Analytics.SESSION_KEY = None
  /\ Analytics.getSessionStart ok storage = None
  /\ sessionStartRef (SessionScreen.timer s') = Some now
  /\ elapsed (SessionScreen.timer s') = formatElapsed (nowTick - now).
Proof.
  intros s storage s'.
  assert (Hnone : storage !! Analytics.SESSION_KEY = None)
    by apply flush_stopTimer.
  assert (Hget : Analytics.getSessionStart ok storage = None).
  { unfold Analytics.getSessionStart. rewrite Hnone. now destruct ok. }
  subst s'. rewrite Hget. repeat split; assumption.
Qed.

(** ** The hook [useOtp] *)

Section UseOtpHook.

Import UseOtp.

Lemma otp_ok_same h h' :
  scheduled h' = scheduled h ->
  countdownRef h' = countdownRef h ->
  nextHandle h' = nextHandle h ->
  otp_ok h -> otp_ok h'.
Proof. unfold otp_ok. intros -> -> ->. auto. Qed.

Lemma otp_ok_clear id h :
  otp_ok h -> countdownRef h = Some id ->
  otp_ok (setCountdownRef None (clearInterval id h)).
Proof.
  intros [Hs _] Hi. split; [| discriminate].
  simpl. rewrite Hs, Hi. simpl. now rewrite Pos.eqb_refl.
Qed.

Lemma handleVerify_frame email now h :
  scheduled (handleVerify email now h) = scheduled h
  /\ countdownRef (handleVerify email now h) = countdownRef h
  /\ nextHandle (handleVerify email now h) = nextHandle h
  /\ countdown (handleVerify email now h) = countdown h
  /\ otpInput (handleVerify email now h) = otpInput h.
Proof.
  unfold handleVerify.
  destruct (negb _); [easy |]. simpl.
  destruct (OtpManager.validateOtp _ _ _ _) as [[|reason] store]; [easy |].
  simpl. now destruct (OtpManager.getRemainingAttempts _ _).
Qed.

Lemma otp_ok_startCountdown email now h :
  otp_ok h -> otp_ok (startCountdown email now h).
Proof.
  intros [Hs Hid]. unfold startCountdown.
  destruct (countdownRef h) as [id|] eqn:Hi; simpl in *;
    destruct (OtpManager.getRemainingSeconds _ _ _) as [secs store]; simpl.
  - rewrite Hs. simpl. rewrite Pos.eqb_refl.
    split; [reflexivity |]. simpl. intros ? [= <-]. lia.
  - rewrite Hs. split; [reflexivity |]. simpl. intros ? [= <-]. lia.
Qed.

Lemma otp_ok_poll email now h : otp_ok h -> otp_ok (poll email now h).
Proof.
  intros Hok. unfold poll.
  destruct (OtpManager.getRemainingSeconds _ _ _) as [secs store]. simpl.
  destruct (secs <=? 0); [| now apply (otp_ok_same h)].
  destruct (countdownRef h) as [id|] eqn:Hi; [| now apply (otp_ok_same h)].
  destruct Hok as [Hs Hid]. split; [| discriminate].
  simpl. rewrite Hs, Hi. simpl. now rewrite Pos.eqb_refl.
Qed.

Lemma otp_ok_step email e h : otp_ok h -> otp_ok (otp_step email e h).
Proof.
  intros Hok. destruct e as [v|now|now raw nowC|now|now|]; simpl.
  - now apply (otp_ok_same h).
  - destruct (handleVerify_frame email now h) as (H1 & H2 & H3 & _).
    now apply (otp_ok_same h).
  - unfold handleResend. simpl.
    match goal with
    | |- otp_ok (logEvent _ (startCountdown _ _ ?h0)) =>
        apply (otp_ok_same (startCountdown email nowC h0));
          [reflexivity .. | apply otp_ok_startCountdown;
                            now apply (otp_ok_same h)]
    end.
  - now apply otp_ok_poll.
  - now apply otp_ok_startCountdown.
  - unfold unmount. destruct (countdownRef h) as [id|] eqn:Hi;
      [now apply otp_ok_clear | exact Hok].
Qed.

Lemma otp_ok_run email es h : otp_ok h -> otp_ok (otp_run email es h).
Proof.
  unfold otp_run. revert h.
  induction es as [|e es IH]; simpl; intros h H; [exact H |].
  now apply IH, otp_ok_step.
Qed.

Lemma otp_ok_initial store : otp_ok (initial store).
Proof. split; [reflexivity | discriminate]. Qed.

End UseOtpHook.

(** X21.  Whatever the user does on the OTP screen, resends in any number
    included, at most one countdown task is scheduled: the one whose handle
    the hook holds; after the cleanup of the effect none is left. *)
Theorem countdown_single_task email es store :
  let h := otp_run email es (UseOtp.initial store) in
  UseOtp.scheduled h = option_list (UseOtp.countdownRef h)
  /\ (length (UseOtp.scheduled h) <= 1)%nat
  /\ UseOtp.scheduled (UseOtp.unmount h) = []
  /\ UseOtp.countdownRef (UseOtp.unmount h) = None.
Proof.
  intros h.
  pose proof (otp_ok_run email es _ (otp_ok_initial store)) as Hok.
  fold h in Hok. destruct Hok as [Hs _].
  split; [exact Hs |]. split.
  - rewrite Hs. destruct (UseOtp.countdownRef h); simpl; lia.
  - unfold UseOtp.unmount.
    destruct (UseOtp.countdownRef h) as [id|] eqn:Hi; simpl.
    + rewrite Hs. simpl. now rewrite Pos.eqb_refl.
    + now rewrite Hs.
Qed.

Section UseOtpVerify.

Import UseOtp.

Lemma handleVerify_blank email now h :
  JS.trim (otpInput h) = "" ->
  handleVerify email now h = setMessage "Please enter the OTP." h.
Proof. intros H. unfold handleVerify. now rewrite H. Qed.

Lemma handleVerify_success email now h store :
  JS.trim (otpInput h) <> "" ->
  OtpManager.validateOtp email (otpInput h) now (manager h)
  = (Success, store) ->
  handleVerify email now h
  = setLoading false
      (logEvent (mkLogCall otp_validation_success email None)
         (setVerified true
            (setMessage "✅ OTP verified successfully!"
               (setManager store (setLoading true h))))).
Proof.
  intros Hne Hv. unfold handleVerify.
  destruct (JS.trim (otpInput h)); [now elim Hne |]. simpl.
  now rewrite Hv.
Qed.

Lemma handleVerify_failure email now h reason store :
  JS.trim (otpInput h) <> "" ->
  OtpManager.validateOtp email (otpInput h) now (manager h)
  = (Failure reason, store) ->
  handleVerify email now h
  = setLoading false
      (logEvent (mkLogCall otp_validation_failure email
                   (Some (reasonMeta reason)))
         (setRemainingAttempts
            (fst (OtpManager.getRemainingAttempts email store))
            (setManager store
               (setMessage (reasonMessages reason)
                  (setManager store (setLoading true h)))))).
Proof.
  intros Hne Hv. unfold handleVerify.
  destruct (JS.trim (otpInput h)); [now elim Hne |]. simpl.
  rewrite Hv. simpl. unfold OtpManager.getRemainingAttempts.
  now destruct (store !! email).
Qed.

End UseOtpVerify.

(** X22.  The screen reports a verification only when the manager accepted
    the code.  On a hook that is not verified yet, [handleVerify] sets
    [verified] exactly when the input is not blank and the store holds, for
    the identity, a record that is not expired, counts fewer than 3 failed
    attempts and whose code is the trimmed input; the record is then deleted
    and one success event is logged.  An input that is blank reaches neither
    the manager nor the analytics: it costs no attempt. *)
Theorem handleVerify_verified_iff email now h :
  UseOtp.verified h = false ->
  let h' := UseOtp.handleVerify email now h in
  (UseOtp.verified h' = true
   <-> JS.trim (UseOtp.otpInput h) <> ""
       /\ exists record,
            UseOtp.manager h !! email = Some record
            /\ now - createdAt record <= OTP_EXPIRY_MS
            /\ attempts record < MAX_ATTEMPTS
            /\ JS.trim (UseOtp.otpInput h) = code record)
  /\ (UseOtp.verified h' = true ->
      UseOtp.manager h' = delete email (UseOtp.manager h)
      /\ UseOtp.logged h'
         = UseOtp.mkLogCall otp_validation_success email None
           :: UseOtp.logged h)
  /\ (JS.trim (UseOtp.otpInput h) = "" ->
      UseOtp.manager h' = UseOtp.manager h
      /\ UseOtp.logged h' = UseOtp.logged h
      /\ UseOtp.remainingAttempts h' = UseOtp.remainingAttempts h).
Proof.
  intros Hnv h'.
  destruct (string_dec (JS.trim (UseOtp.otpInput h)) "") as [Hblank|Hne].
  - assert (E : h' = UseOtp.setMessage "Please enter the OTP." h)
      by now apply handleVerify_blank.
    rewrite E. simpl. rewrite Hnv.
    split; [| split]; try easy; (split; [discriminate | tauto]).
  - destruct (validateOtp email (UseOtp.otpInput h) now (UseOtp.manager h))
      as [[|reason] store] eqn:Hv.
    + assert (E : h' = _) by exact (handleVerify_success _ _ _ _ Hne Hv).
      pose proof (validateOtp_success_inv email (UseOtp.otpInput h) now
                    (UseOtp.manager h)) as Hinv.
      rewrite Hv in Hinv. destruct (Hinv eq_refl)
        as (record & Hrecord & He & Ha & Hc).
      rewrite (validateOtp_match email _ record Hrecord _ _ He Ha Hc) in Hv.
      injection Hv as <-.
      rewrite E. simpl.
      split; [| split]; try easy.
      split; [| reflexivity]. intros _. split; [exact Hne |].
      exists record. auto.
    + assert (E : h' = _) by exact (handleVerify_failure _ _ _ _ _ Hne Hv).
      rewrite E. simpl. rewrite Hnv.
      split; [| split]; try easy.
      split; [discriminate |]. intros (_ & record & Hrecord & He & Ha & Hc).
      rewrite (validateOtp_match email _ record Hrecord _ _ He Ha Hc) in Hv.
      discriminate.
Qed.

(** The code typed with a space after it, and a blank input. *)
Lemma handleVerify_verified_iff_witness :
  let store := snd (generateOtp "a@x.com" 1000 42 ∅) in
  let h := UseOtp.setOtpInput "000042 " (UseOtp.initial store) in
  let b := UseOtp.setOtpInput "  " (UseOtp.initial store) in
  UseOtp.verified (UseOtp.handleVerify "a@x.com" 2000 h) = true
  /\ UseOtp.manager (UseOtp.handleVerify "a@x.com" 2000 h) !! "a@x.com" = None
  /\ UseOtp.manager (UseOtp.handleVerify "a@x.com" 2000 b) = store.
Proof.
  intros store h b.
  destruct (handleVerify_verified_iff "a@x.com" 2000 h eq_refl)
    as (Hiff & Hdel & _).
  destruct (handleVerify_verified_iff "a@x.com" 2000 b eq_refl)
    as (_ & _ & Hblank).
  assert (Hv : UseOtp.verified (UseOtp.handleVerify "a@x.com" 2000 h) = true).
  { apply Hiff. split; [vm_compute; discriminate |].
    exists {| code := createRandomCode 42; createdAt := 1000; attempts := 0 |}.
    split; [apply generateOtp_lookup |].
    split; [by_constants |]. split; [by_constants | reflexivity]. }
  split; [exact Hv |]. split.
  - destruct (Hdel Hv) as [Hm _]. rewrite Hm. apply lookup_delete_eq.
  - destruct (Hblank eq_refl) as [Hm _]. exact Hm.
Defined.

(** X23.  After a verification that failed, the remaining attempts the
    screen displays are those of the manager; they are [0] unless the
    outcome was [incorrect], so that the verify button is enabled again only
    after an [incorrect] outcome: after [expired], [max_attempts] and
    [no_otp] the user has to resend. *)
Theorem failed_verify_display email now h reason store :
  JS.trim (UseOtp.otpInput h) <> "" ->
  validateOtp email (UseOtp.otpInput h) now (UseOtp.manager h)
  = (Failure reason, store) ->
  let h' := UseOtp.handleVerify email now h in
  UseOtp.manager h' = store
  /\ UseOtp.remainingAttempts h'
     = fst (getRemainingAttempts email (UseOtp.manager h'))
  /\ (UseOtp.remainingAttempts h' = 0 <-> reason <> incorrect)
  /\ (UseOtp.canVerify h' = true -> reason = incorrect)
  /\ UseOtp.logged h'
     = UseOtp.mkLogCall otp_validation_failure email
         (Some (UseOtp.reasonMeta reason)) :: UseOtp.logged h.
Proof.
  intros Hne Hv h'.
  assert (E : h' = _) by exact (handleVerify_failure _ _ _ _ _ Hne Hv).
  rewrite E. simpl.
  assert (Hzero : fst (getRemainingAttempts email store) = 0
                  <-> reason <> incorrect).
  { revert Hv. unfold validateOtp, getRemainingAttempts.
    destruct (UseOtp.manager h !! email) as [record|] eqn:Hrecord.
    - destruct (OTP_EXPIRY_MS <? now - createdAt record).
      + intros [= <- <-]. rewrite lookup_delete_eq. simpl.
        split; [discriminate | reflexivity].
      + destruct (Z.leb_spec MAX_ATTEMPTS (attempts record)) as [Ha|Ha].
        * intros [= <- <-]. rewrite Hrecord. simpl. unfold MAX_ATTEMPTS in *.
          split; [discriminate | lia].
        * destruct (negb _); [| discriminate]. cbv zeta. simpl.
          destruct (Z.leb_spec MAX_ATTEMPTS (attempts record + 1)) as [Hb|Hb];
            intros [= <- <-]; rewrite lookup_insert_eq; simpl;
            unfold MAX_ATTEMPTS in *; split; try discriminate; try lia;
            congruence.
    - intros [= <- <-]. rewrite Hrecord. simpl.
      split; [discriminate | reflexivity]. }
  repeat split; try apply Hzero; try reflexivity.
  unfold UseOtp.canVerify, UseOtp.attemptsExhausted. simpl.
  intros Hcan. destruct reason; try reflexivity;
    (assert (H0 : fst (getRemainingAttempts email store) = 0)
       by (apply Hzero; discriminate));
    rewrite H0 in Hcan; simpl in Hcan;
    rewrite ?andb_false_r in Hcan; discriminate.
Qed.

Lemma failed_verify_display_witness :
  let store := snd (generateOtp "a@x.com" 1000 42 ∅) in
  let h := UseOtp.setOtpInput "000041" (UseOtp.initial store) in
  let h' := UseOtp.handleVerify "a@x.com" 2000 h in
  let h'' := UseOtp.handleVerify "a@x.com" 62000 h' in
  UseOtp.remainingAttempts h' = 2
  /\ UseOtp.canVerify h' = true
  /\ UseOtp.remainingAttempts h'' = 0
  /\ UseOtp.canVerify h'' = false.
Proof.
  intros store h h' h''.
  split; [vm_compute; reflexivity |]. split; [vm_compute; reflexivity |].
  destruct (failed_verify_display "a@x.com" 62000 h' expired
              (delete "a@x.com" (UseOtp.manager h')))
    as (_ & _ & Hz & _); [vm_compute; discriminate | vm_compute; reflexivity |].
  fold h'' in Hz.
  assert (H0 : UseOtp.remainingAttempts h'' = 0) by (apply Hz; discriminate).
  split; [exact H0 |].
  unfold UseOtp.canVerify, UseOtp.attemptsExhausted. rewrite H0.
  simpl. apply andb_false_r.
Defined.

Lemma getRemainingSeconds_store email now store :
  snd (getRemainingSeconds email now store) = store.
Proof. unfold getRemainingSeconds. now destruct (store !! email). Qed.

Lemma startCountdown_fields email now h :
  let h' := UseOtp.startCountdown email now h in
  UseOtp.countdown h' = fst (getRemainingSeconds email now (UseOtp.manager h))
  /\ UseOtp.manager h' = UseOtp.manager h
  /\ UseOtp.countdownRef h' = Some (UseOtp.nextHandle h)
  /\ UseOtp.otpInput h' = UseOtp.otpInput h
  /\ UseOtp.remainingAttempts h' = UseOtp.remainingAttempts h
  /\ UseOtp.verified h' = UseOtp.verified h
  /\ UseOtp.loading h' = UseOtp.loading h
  /\ UseOtp.logged h' = UseOtp.logged h.
Proof.
  intros h'. subst h'. unfold UseOtp.startCountdown.
  pose proof (getRemainingSeconds_store email now (UseOtp.manager h)) as Hst.
  destruct (UseOtp.countdownRef h) as [id|]; simpl in *;
    destruct (getRemainingSeconds email now (UseOtp.manager h))
      as [secs st]; simpl in *; subst st; repeat split.
Qed.

(** X24.  A resend starts over: the store holds a fresh record for the
    identity, the input is emptied, 3 attempts are displayed, which is what
    the manager counts, the previous countdown task is replaced by a new
    one, and one [otp_generated] event marked as a resend is logged.  When
    the countdown is read less than a second after the generation it shows
    60, and the verify button is enabled unless a verification is under way
    or done. *)
Theorem handleResend_resets email now raw nowCountdown h :
  let h' := UseOtp.handleResend email now raw nowCountdown h in
  UseOtp.manager h' !! email
  = Some {| code := createRandomCode raw; createdAt := now; attempts := 0 |}
  /\ UseOtp.otpInput h' = ""
  /\ UseOtp.remainingAttempts h' = 3
  /\ fst (getRemainingAttempts email (UseOtp.manager h')) = 3
  /\ UseOtp.countdown h'
     = fst (getRemainingSeconds email nowCountdown (UseOtp.manager h'))
  /\ UseOtp.countdownRef h' = Some (UseOtp.nextHandle h)
  /\ UseOtp.logged h'
     = UseOtp.mkLogCall otp_generated email (Some UseOtp.resendMeta)
       :: UseOtp.logged h
  /\ (0 <= nowCountdown - now < 1000 ->
      UseOtp.countdown h' = 60
      /\ (UseOtp.loading h = false -> UseOtp.verified h = false ->
          UseOtp.canVerify h' = true)).
Proof.
  intros h'. subst h'. unfold UseOtp.handleResend.
  cbn [generateOtp].
  set (store' := <[email := _]> (UseOtp.manager h)).
  set (h0 := UseOtp.setRemainingAttempts 3 _).
  destruct (startCountdown_fields email nowCountdown h0)
    as (Hc & Hm & Hr & Hi & Ha & Hv & Hl & Hg).
  cbn [UseOtp.logEvent UseOtp.manager UseOtp.otpInput UseOtp.countdown
         UseOtp.remainingAttempts UseOtp.countdownRef UseOtp.logged
         UseOtp.verified UseOtp.loading].
  rewrite Hm, Hc, Hr, Hi, Ha, Hg.
  change (UseOtp.manager h0) with store'.
  assert (Hrecord : store' !! email
            = Some {| code := createRandomCode raw; createdAt := now;
                      attempts := 0 |}) by apply lookup_insert_eq.
  assert (Hsecs : 0 <= nowCountdown - now < 1000 ->
            fst (getRemainingSeconds email nowCountdown store') = 60).
  { intros Hd. unfold getRemainingSeconds. rewrite Hrecord. simpl.
    unfold OTP_EXPIRY_MS.
    destruct (Z.ltb_spec 0 (60 * 1000 - (nowCountdown - now))); [| lia].
    apply ceil_div_unique; lia. }
  split; [exact Hrecord |]. split; [reflexivity |]. split; [reflexivity |].
  split; [unfold getRemainingAttempts; now rewrite Hrecord |].
  split; [reflexivity |]. split; [reflexivity |]. split; [reflexivity |].
  intros Hd. split; [now apply Hsecs |].
  intros Hload Hver.
  unfold UseOtp.canVerify, UseOtp.isExpired, UseOtp.attemptsExhausted.
  cbn [UseOtp.logEvent UseOtp.countdown UseOtp.remainingAttempts
         UseOtp.verified UseOtp.loading].
  rewrite Hl, Hv, Hc, Ha.
  change (UseOtp.manager h0) with store'.
  change (UseOtp.loading h0) with (UseOtp.loading h).
  change (UseOtp.verified h0) with (UseOtp.verified h).
  rewrite Hload, Hver, (Hsecs Hd). reflexivity.
Qed.

(** A locked identity resends, and the new code is verified. *)
Lemma handleResend_resets_witness :
  let store :=
    run_all [Generate "a@x.com" 1000 42; Validate "a@x.com" "1" 2000;
             Validate "a@x.com" "2" 3000; Validate "a@x.com" "3" 4000] ∅ in
  let h := UseOtp.startCountdown "a@x.com" 4500 (UseOtp.initial store) in
  let h' := UseOtp.handleResend "a@x.com" 5000 7 5001 h in
  UseOtp.countdown h' = 60
  /\ UseOtp.canVerify h' = true
  /\ UseOtp.scheduled h' = [2%positive]
  /\ UseOtp.verified
       (UseOtp.handleVerify "a@x.com" 6000 (UseOtp.setOtpInput "000007" h'))
     = true.
Proof.
  intros store h h'.
  destruct (handleResend_resets "a@x.com" 5000 7 5001 h)
    as (_ & _ & _ & _ & _ & _ & _ & H).
  fold h' in H. destruct H as [Hc Hcan]; [lia |].
  split; [exact Hc |]. split; [now apply Hcan |].
  split; vm_compute; reflexivity.
Defined.

(** X25.  The countdown task displays the seconds the manager reports,
    which are never negative, and stops itself when they reach [0]: the
    handle is dropped, no task is left scheduled and the screen shows the
    code as expired.  While seconds remain the task stays scheduled.  The
    store is only read. *)
Theorem poll_stops_at_zero email es store now :
  let h := otp_run email es (UseOtp.initial store) in
  let h' := UseOtp.poll email now h in
  UseOtp.countdown h' = fst (getRemainingSeconds email now (UseOtp.manager h))
  /\ 0 <= UseOtp.countdown h'
  /\ UseOtp.manager h' = UseOtp.manager h
  /\ (UseOtp.countdown h' = 0 ->
      UseOtp.countdownRef h' = None
      /\ UseOtp.scheduled h' = []
      /\ UseOtp.isExpired h' = true)
  /\ (0 < UseOtp.countdown h' ->
      UseOtp.countdownRef h' = UseOtp.countdownRef h
      /\ UseOtp.scheduled h' = UseOtp.scheduled h
      /\ UseOtp.isExpired h' = false).
Proof.
  intros h h'.
  pose proof (otp_ok_run email es _ (otp_ok_initial store)) as [Hs _].
  fold h in Hs.
  pose proof (getRemainingSeconds_nonneg email now (UseOtp.manager h)) as Hpos.
  assert (Hsame : snd (getRemainingSeconds email now (UseOtp.manager h))
                  = UseOtp.manager h).
  { unfold getRemainingSeconds. now destruct (UseOtp.manager h !! email). }
  subst h'. unfold UseOtp.poll.
  destruct (getRemainingSeconds email now (UseOtp.manager h))
    as [secs st] eqn:Hg. simpl in Hpos, Hsame. subst st. simpl.
  destruct (Z.leb_spec secs 0) as [Hz|Hz].
  - destruct (UseOtp.countdownRef h) as [id|] eqn:Hi; simpl;
      rewrite ?Hs, ?Hi; simpl; rewrite ?Pos.eqb_refl;
      unfold UseOtp.isExpired; simpl;
      (repeat split; try reflexivity; try lia;
       try (apply Z.leb_le; lia)).
  - unfold UseOtp.isExpired. simpl.
    repeat split; try reflexivity; try lia; try (apply Z.leb_gt; lia).
Qed.

(** ** The login screen *)

Section RegExps.

Import JS.

#[local] Arguments String.append !s1 s2 : simpl nomatch.

Lemma append_empty_r (s : string) : (s ++ "")%string = s.
Proof. induction s as [|c s IH]; simpl; [reflexivity | now rewrite IH]. Qed.

Lemma append_assoc (s t u : string) :
  ((s ++ t) ++ u)%string = (s ++ (t ++ u))%string.
Proof. induction s as [|c s IH]; simpl; [reflexivity | now rewrite IH]. Qed.

Lemma append_eq_empty (s t : string) :
  (s ++ t)%string = "" -> s = "" /\ t = "".
Proof. destruct s; simpl; [auto | discriminate]. Qed.

Lemma nullable_lang r : nullable r = true <-> lang r "".
Proof.
  induction r as [| |p|r1 IH1 r2 IH2|r1 IH1 r2 IH2|r IH]; simpl.
  - split; [discriminate | tauto].
  - tauto.
  - split; [discriminate | intros (c & H & _); discriminate].
  - rewrite andb_true_iff, IH1, IH2. split.
    + intros [H1 H2]. now exists "", "".
    + intros (s1 & s2 & Heq & H1 & H2).
      symmetry in Heq. apply append_eq_empty in Heq as [-> ->]. auto.
  - rewrite orb_true_iff, IH1, IH2. tauto.
  - split; [| reflexivity]. intros _. exists []. split; [reflexivity | constructor].
Qed.

Lemma deriv_lang c r s : lang (deriv c r) s <-> lang r (String c s).
Proof.
  revert s.
  induction r as [| |p|r1 IH1 r2 IH2|r1 IH1 r2 IH2|r IH]; intros s; simpl.
  - tauto.
  - split; [tauto | discriminate].
  - destruct (p c) eqn:Hp; simpl.
    + split; [intros ->; now exists c |].
      intros (c' & [= <- ->] & _). reflexivity.
    + split; [tauto |]. intros (c' & [= <- ->] & Hp'). congruence.
  - assert (Hcat : lang (Cat (deriv c r1) r2) s
                   <-> exists s1 s2, String c s = (s1 ++ s2)%string
                                     /\ s1 <> "" /\ lang r1 s1 /\ lang r2 s2).
    { simpl. split.
      - intros (s1 & s2 & -> & H1 & H2). apply IH1 in H1.
        exists (String c s1), s2.
        split; [reflexivity |]. split; [discriminate | auto].
      - intros (s1 & s2 & Heq & Hne & H1 & H2).
        destruct s1 as [|c' s1]; [now elim Hne |].
        injection Heq as <- ->. exists s1, s2. rewrite IH1. auto. }
    assert (Hgoal : (exists s1 s2, String c s = (s1 ++ s2)%string
                                   /\ lang r1 s1 /\ lang r2 s2)
                    <-> (exists s1 s2, String c s = (s1 ++ s2)%string
                                       /\ s1 <> "" /\ lang r1 s1 /\ lang r2 s2)
                        \/ (lang r1 "" /\ lang r2 (String c s))).
    { split.
      - intros (s1 & s2 & Heq & H1 & H2). destruct s1 as [|c' s1].
        + right. simpl in Heq. subst s2. auto.
        + left. exists (String c' s1), s2.
          split; [exact Heq |]. split; [discriminate | auto].
      - intros [(s1 & s2 & Heq & _ & H1 & H2) | [H1 H2]].
        + now exists s1, s2.
        + now exists "", (String c s). }
    rewrite Hgoal. rewrite <- Hcat.
    destruct (nullable r1) eqn:Hn.
    + change (lang (Alt (Cat (deriv c r1) r2) (deriv c r2)) s)
        with (lang (Cat (deriv c r1) r2) s \/ lang (deriv c r2) s).
      rewrite IH2. apply nullable_lang in Hn. tauto.
    + split; [tauto |]. intros [H | [H _]]; [exact H |].
      apply nullable_lang in H. congruence.
  - rewrite IH1, IH2. tauto.
  - split.
    + intros (s1 & s2 & -> & H1 & pieces & -> & Hall).
      apply IH in H1. exists (String c s1 :: pieces). split; [reflexivity |].
      constructor; [| exact Hall]. split; [exact H1 | discriminate].
    + intros (pieces & Heq & Hall).
      destruct Hall as [|x pieces [Hx Hne] Hall]; [discriminate |].
      destruct x as [|c' x]; [now elim Hne |].
      simpl in Heq. injection Heq as <- ->.
      exists x, (fold_right String.append "" pieces).
      split; [reflexivity |]. split; [now apply IH |].
      now exists pieces.
Qed.

(** The matcher decides the language of the expression. *)
Lemma test_lang r s : test r s = true <-> lang r s.
Proof.
  revert r. induction s as [|c s IH]; intros r; simpl.
  - apply nullable_lang.
  - rewrite IH. apply deriv_lang.
Qed.

Lemma lang_star_class p s :
  lang (Star (Class p)) s <-> all_chars p s = true.
Proof.
  split.
  - intros (pieces & -> & Hall).
    induction Hall as [|x pieces [(c & -> & Hp) _] _ IH]; [reflexivity |].
    simpl. now rewrite Hp, IH.
  - induction s as [|c s IH]; simpl.
    + intros _. exists []. split; [reflexivity | constructor].
    + intros [Hp Hs]%andb_true_iff.
      destruct (IH Hs) as (pieces & -> & Hall).
      exists (String c "" :: pieces). split; [reflexivity |].
      constructor; [| exact Hall].
      split; [now exists c | discriminate].
Qed.

Lemma lang_plus_class p s :
  lang (Plus (Class p)) s <-> s <> "" /\ all_chars p s = true.
Proof.
  unfold Plus.
  change (lang (Cat (Class p) (Star (Class p))) s)
    with (exists s1 s2, s = (s1 ++ s2)%string
                        /\ lang (Class p) s1 /\ lang (Star (Class p)) s2).
  split.
  - intros (s1 & s2 & -> & (c & -> & Hp) & H2).
    apply lang_star_class in H2. simpl. rewrite Hp, H2.
    split; [discriminate | reflexivity].
  - intros [Hne Hall]. destruct s as [|c s]; [now elim Hne |].
    simpl in Hall. apply andb_true_iff in Hall as [Hp Hs].
    exists (String c ""), s. split; [reflexivity |].
    split; [now exists c | now apply lang_star_class].
Qed.

Lemma lang_char c s : lang (Class (Ascii.eqb c)) s <-> s = String c "".
Proof.
  simpl. split.
  - intros (c' & -> & Hc). apply Ascii.eqb_eq in Hc. now subst.
  - intros ->. exists c. split; [reflexivity | apply Ascii.eqb_refl].
Qed.

End RegExps.

Lemma email_regex_lang s :
  JS.test LoginScreen.EMAIL_REGEX s = true
  <-> exists a b c,
        s = (a ++ "@" ++ b ++ "." ++ c)%string
        /\ email_part a /\ email_part b /\ email_part c.
Proof.
  rewrite test_lang. unfold LoginScreen.EMAIL_REGEX.
  cbn [lang]. fold (lang (JS.Plus (JS.Class LoginScreen.not_space_at))).
  split.
  - intros (a & s1 & -> & Ha & at' & s2 & -> & Hat & b & s3 & -> & Hb
            & dot & c & -> & Hdot & Hc).
    apply lang_plus_class in Ha, Hb, Hc.
    assert (at' = "@") as ->.
    { destruct Hat as (x & -> & Hx). apply Ascii.eqb_eq in Hx. now subst. }
    assert (dot = ".") as ->.
    { destruct Hdot as (x & -> & Hx). apply Ascii.eqb_eq in Hx. now subst. }
    now exists a, b, c.
  - intros (a & b & c & -> & Ha & Hb & Hc).
    exists a, ("@" ++ b ++ "." ++ c)%string.
    split; [reflexivity |]. split; [now apply lang_plus_class |].
    exists "@", (b ++ "." ++ c)%string.
    split; [reflexivity |]. split; [now exists "@"%char |].
    exists b, ("." ++ c)%string.
    split; [reflexivity |]. split; [now apply lang_plus_class |].
    exists ".", c.
    split; [reflexivity |]. split; [now exists "."%char |].
    now apply lang_plus_class.
Qed.

Section EmailParts.

Import JS.

#[local] Arguments String.append !s1 s2 : simpl nomatch.

Lemma occurrences_app c s t :
  occurrences c (s ++ t) = (occurrences c s + occurrences c t)%nat.
Proof. induction s as [|c' s IH]; simpl; [reflexivity | rewrite IH; lia]. Qed.

Lemma email_part_plain s :
  all_chars LoginScreen.not_space_at s = true ->
  no_white_space s = true /\ occurrences "@" s = 0%nat.
Proof.
  induction s as [|c s IH]; simpl; [auto |].
  intros [Hc Hs]%andb_true_iff. destruct (IH Hs) as [H1 H2].
  unfold LoginScreen.not_space_at in Hc.
  apply negb_true_iff, orb_false_iff in Hc as [Hw Ha].
  now rewrite Hw, Ha, H1, H2.
Qed.

Lemma toLowerCase_char_class c :
  is_white_space (toLowerCase_char c) = is_white_space c
  /\ Ascii.eqb (toLowerCase_char c) "@" = Ascii.eqb c "@"
  /\ toLowerCase_char (toLowerCase_char c) = toLowerCase_char c.
Proof. destruct c as [[] [] [] [] [] [] [] []]; vm_compute; auto. Qed.

Lemma toLowerCase_app s t :
  toLowerCase (s ++ t) = (toLowerCase s ++ toLowerCase t)%string.
Proof. induction s as [|c s IH]; simpl; [reflexivity | now rewrite IH]. Qed.

Lemma toLowerCase_idem s : toLowerCase (toLowerCase s) = toLowerCase s.
Proof.
  induction s as [|c s IH]; simpl; [reflexivity |].
  destruct (toLowerCase_char_class c) as (_ & _ & ->). now rewrite IH.
Qed.

Lemma toLowerCase_empty s : toLowerCase s = "" <-> s = "".
Proof. destruct s; simpl; split; auto; discriminate. Qed.

Lemma email_part_toLowerCase s : email_part s -> email_part (toLowerCase s).
Proof.
  intros [Hne Hall]. split; [now rewrite toLowerCase_empty |].
  clear Hne. induction s as [|c s IH]; simpl in *; [reflexivity |].
  apply andb_true_iff in Hall as [Hc Hs]. rewrite (IH Hs), andb_true_r.
  unfold LoginScreen.not_space_at in *.
  destruct (toLowerCase_char_class c) as (-> & -> & _). exact Hc.
Qed.

Lemma trimStart_toLowerCase s :
  trimStart (toLowerCase s) = toLowerCase (trimStart s).
Proof.
  induction s as [|c s IH]; simpl; [reflexivity |].
  destruct (toLowerCase_char_class c) as (-> & _ & _).
  now destruct (is_white_space c).
Qed.

Lemma trimEnd_toLowerCase s :
  trimEnd (toLowerCase s) = toLowerCase (trimEnd s).
Proof.
  induction s as [|c s IH]; simpl; [reflexivity |].
  rewrite IH. destruct (toLowerCase_char_class c) as (-> & _ & _).
  destruct (trimEnd s); simpl; [now destruct (is_white_space c) | reflexivity].
Qed.

Lemma trim_toLowerCase s : trim (toLowerCase s) = toLowerCase (trim s).
Proof.
  unfold trim. now rewrite trimStart_toLowerCase, trimEnd_toLowerCase.
Qed.

Lemma trimEnd_idem s : trimEnd (trimEnd s) = trimEnd s.
Proof.
  induction s as [|c s IH]; simpl; [reflexivity |].
  destruct (trimEnd s) as [|c' r] eqn:Hr.
  - destruct (is_white_space c) eqn:Hc; simpl; [reflexivity | now rewrite Hc].
  - change (trimEnd (String c (String c' r))) with
      (match trimEnd (String c' r) with
       | "" => if is_white_space c then "" else String c ""
       | r' => String c r'
       end).
    now rewrite IH.
Qed.

Lemma trimStart_trimEnd_head s :
  match trimEnd (trimStart s) with
  | String c _ => is_white_space c = false
  | EmptyString => True
  end.
Proof.
  induction s as [|c s IH]; simpl; [exact I |].
  destruct (is_white_space c) eqn:Hc; [exact IH |].
  simpl. destruct (trimEnd s); [now rewrite Hc | exact Hc].
Qed.

Lemma trim_idem s : trim (trim s) = trim s.
Proof.
  unfold trim.
  pose proof (trimStart_trimEnd_head s) as Hh.
  destruct (trimEnd (trimStart s)) as [|c r] eqn:Ht; [reflexivity |].
  change (trimStart (String c r))
    with (if is_white_space c then trimStart r else String c r).
  rewrite Hh, <- Ht. apply trimEnd_idem.
Qed.

End EmailParts.

(** X26.  [EMAIL_REGEX] accepts exactly the strings made of three parts
    joined by ["@"] and ["."], each part being non-empty and free of white
    space and of ["@"].  An accepted string therefore contains no white
    space and a single ["@"]. *)
Theorem email_regex_accepts s :
  (JS.test LoginScreen.EMAIL_REGEX s = true
   <-> exists a b c,
         s = (a ++ "@" ++ b ++ "." ++ c)%string
         /\ email_part a /\ email_part b /\ email_part c)
  /\ (JS.test LoginScreen.EMAIL_REGEX s = true ->
      JS.no_white_space s = true /\ occurrences "@" s = 1%nat).
Proof.
  split; [apply email_regex_lang |].
  intros (a & b & c & -> & [_ Ha] & [_ Hb] & [_ Hc])%email_regex_lang.
  apply email_part_plain in Ha as [Ha1 Ha2], Hb as [Hb1 Hb2], Hc as [Hc1 Hc2].
  rewrite !no_white_space_app, !occurrences_app, Ha1, Ha2, Hb1, Hb2, Hc1, Hc2.
  split; reflexivity.
Qed.

Lemma email_regex_accepts_witness :
  JS.test LoginScreen.EMAIL_REGEX "bob.smith@mail.example.com" = true
  /\ JS.test LoginScreen.EMAIL_REGEX "bob@example" = false
  /\ JS.test LoginScreen.EMAIL_REGEX "bob smith@example.com" = false
  /\ occurrences "@" "bob.smith@mail.example.com" = 1%nat.
Proof.
  assert (H : JS.test LoginScreen.EMAIL_REGEX "bob.smith@mail.example.com"
              = true) by (vm_compute; reflexivity).
  split; [exact H |]. split; [vm_compute; reflexivity |].
  split; [vm_compute; reflexivity |].
  destruct (email_regex_accepts "bob.smith@mail.example.com") as [_ Hs].
  now destruct (Hs H).
Defined.

(** X27.  The identity under which the login screen stores the code is the
    email typed, trimmed and in lower case.  Normalising it again changes
    nothing, an address typed in another case or with white space around it
    gives the same identity, and the identity of an address the screen
    accepts is itself an address it accepts. *)
Theorem email_key_normalised e :
  let key := JS.toLowerCase (JS.trim e) in
  JS.toLowerCase (JS.trim key) = key
  /\ JS.toLowerCase (JS.trim (JS.toLowerCase e)) = key
  /\ JS.toLowerCase (JS.trim (JS.trim e)) = key
  /\ (JS.test LoginScreen.EMAIL_REGEX (JS.trim e) = true ->
      JS.test LoginScreen.EMAIL_REGEX key = true).
Proof.
  intros key. subst key.
  split; [| split; [| split]].
  - now rewrite trim_toLowerCase, trim_idem, toLowerCase_idem.
  - now rewrite trim_toLowerCase, toLowerCase_idem.
  - now rewrite trim_idem.
  - intros (a & b & c & -> & Ha & Hb & Hc)%email_regex_lang.
    apply email_regex_lang.
    exists (JS.toLowerCase a), (JS.toLowerCase b), (JS.toLowerCase c).
    rewrite !toLowerCase_app.
    repeat split; try apply email_part_toLowerCase; tauto.
Qed.

Lemma email_key_normalised_witness :
  JS.toLowerCase (JS.trim "  Bob@Example.COM ") = "bob@example.com"
  /\ JS.test LoginScreen.EMAIL_REGEX "bob@example.com" = true.
Proof.
  split; [reflexivity |].
  apply (email_key_normalised "  Bob@Example.COM ").
  vm_compute. reflexivity.
Defined.

(** X28.  From the login screen to the OTP screen.  With an email the
    screen rejects, [handleSendOtp] only raises the alert: the store and
    the log are untouched.  With an email it accepts, a fresh record is
    stored under the normalised identity, the records of the other
    identities are untouched, one [otp_generated] event is logged, and the
    identity is handed to the OTP screen, where typing the code before it
    expires is reported as verified. *)
Theorem handleSendOtp_flow dev now raw s :
  let s' := LoginScreen.handleSendOtp dev now raw s in
  let key := JS.toLowerCase (JS.trim (LoginScreen.email s)) in
  let code := createRandomCode raw in
  (LoginScreen.isEmailValid s = false ->
   LoginScreen.manager s' = LoginScreen.manager s
   /\ LoginScreen.logged s' = LoginScreen.logged s
   /\ LoginScreen.outcome s' = Some LoginScreen.alertInvalidEmail)
  /\ (LoginScreen.isEmailValid s = true ->
      LoginScreen.manager s' !! key
      = Some {| code := code; createdAt := now; attempts := 0 |}
      /\ (forall e, e <> key ->
            LoginScreen.manager s' !! e = LoginScreen.manager s !! e)
      /\ LoginScreen.logged s'
         = UseOtp.mkLogCall otp_generated key None :: LoginScreen.logged s
      /\ LoginScreen.outcome s'
         = Some (if dev then LoginScreen.alertDevOtp code key
                 else LoginScreen.navigateOtp key)
      /\ (forall now', now' - now <= OTP_EXPIRY_MS ->
            UseOtp.verified
              (UseOtp.handleVerify key now'
                 (UseOtp.setOtpInput code
                    (UseOtp.initial (LoginScreen.manager s'))))
            = true)).
Proof.
  intros s' key code. subst s'. unfold LoginScreen.handleSendOtp.
  fold key.
  destruct (LoginScreen.isEmailValid s); simpl; split; try discriminate.
  - intros _. fold code.
    assert (Hrecord :
              <[key := {| code := code; createdAt := now; attempts := 0 |}]>
                (LoginScreen.manager s) !! key
              = Some {| code := code; createdAt := now; attempts := 0 |})
      by apply lookup_insert_eq.
    split; [exact Hrecord |].
    split; [intros e He; now apply lookup_insert_ne |].
    split; [reflexivity |]. split; [reflexivity |].
    intros now' He.
    assert (Htrim : JS.trim code = code) by apply trim_createRandomCode.
    assert (Hne : JS.trim code <> "").
    { rewrite Htrim. pose proof (length_createRandomCode raw) as Hl.
      fold code in Hl. destruct code; [simpl in Hl; by_constants | discriminate]. }
    set (store' := <[key := _]> (LoginScreen.manager s)) in *.
    rewrite (handleVerify_success key now' _ (delete key store'));
      [reflexivity | exact Hne |].
    apply validateOtp_match with
      (record := {| code := code; createdAt := now; attempts := 0 |});
      [exact Hrecord | exact He | by_constants | exact Htrim].
  - intros _. repeat split.
Qed.

Lemma handleSendOtp_flow_witness :
  let s := LoginScreen.setEmail " Bob@Example.com"
             (LoginScreen.initial ∅) in
  let s' := LoginScreen.handleSendOtp false 1000 42 s in
  LoginScreen.isEmailValid s = true
  /\ LoginScreen.outcome s' = Some (LoginScreen.navigateOtp "bob@example.com")
  /\ UseOtp.verified
       (UseOtp.handleVerify "bob@example.com" 61000
          (UseOtp.setOtpInput "000042"
             (UseOtp.initial (LoginScreen.manager s')))) = true.
Proof.
  intros s s'.
  assert (Hvalid : LoginScreen.isEmailValid s = true)
    by (vm_compute; reflexivity).
  destruct (handleSendOtp_flow false 1000 42 s) as [_ H].
  destruct (H Hvalid) as (_ & _ & _ & Ho & Hv).
  split; [exact Hvalid |]. split; [exact Ho |].
  apply (Hv 61000). by_constants.
Defined.
